(** * Sockeye scoring: [BatchScorer] and [Scorer] (sockeye/scoring.py)

    A shallow embedding of the scoring code and the properties proved of it.

    Numbers.  MXNet arrays and Python floats are modelled by [xreal]: the
    real numbers extended with the IEEE special values [+inf], [-inf] and
    [NaN].  Arithmetic on finite values is exact (no rounding, no overflow,
    no underflow, no signed zero); arithmetic on special values follows
    IEEE 754.  Token ids are integers.  The properties proved of the scores
    are stated so as to relate values that the same operators compute, or
    to rest on the order of the numbers, and not on identities of exact
    arithmetic that rounding or underflow would break.

    Tensors are nested lists, outermost axis first. *)

From Stdlib Require Import Reals Lra Lia ZArith List Ascii String.
From stdpp Require Import base gmap strings list.
Import ListNotations.

Open Scope Z_scope.

(** ** Constants of [sockeye.constants] used by the scoring code *)

Module C.

(** Modelled from the spec: [constants.PAD_ID] is not part of the sources
    at hand; "id 0 is reserved as the padding sentinel". *)
Definition PAD_ID : Z := 0.

(** Modelled from the spec: [constants.SCORING_TYPE_NEGLOGPROB] and
    [constants.SCORING_TYPE_LOGPROB], the two values of `score_type`
    ("negative-log-probability" and "log-probability"). *)
Definition SCORING_TYPE_NEGLOGPROB : string := "neglogprob".
Definition SCORING_TYPE_LOGPROB : string := "logprob".

(** Modelled from the spec: [constants.DTYPE_FP16], the name of the
    "reduced numeric precision" a model can be configured for. *)
Definition DTYPE_FP16 : string := "float16".

(** Modelled from the spec: [constants.TOKEN_SEPARATOR], which joins the
    rendered target tokens into the "rendered target text". *)
Definition TOKEN_SEPARATOR : string := " ".

End C.

(** ** Extended real numbers *)

Inductive xreal : Type :=
| Fin (x : R)
| PInf
| NInf
| NaN.

Definition Rsign (a : R) : comparison :=
  match total_order_T a 0%R with
  | inleft (left _) => Lt
  | inleft (right _) => Eq
  | inright _ => Gt
  end.
#[global] Arguments Rsign : simpl never.

Definition inf_of_sign (c : comparison) : xreal :=
  match c with Lt => NInf | Eq => NaN | Gt => PInf end.

Definition xopp (x : xreal) : xreal :=
  match x with
  | Fin a => Fin (- a)
  | PInf => NInf
  | NInf => PInf
  | NaN => NaN
  end.

Definition xadd (x y : xreal) : xreal :=
  match x, y with
  | NaN, _ | _, NaN => NaN
  | Fin a, Fin b => Fin (a + b)
  | PInf, NInf | NInf, PInf => NaN
  | PInf, _ | _, PInf => PInf
  | NInf, _ | _, NInf => NInf
  end.

Definition xsub (x y : xreal) : xreal := xadd x (xopp y).

Definition xmul (x y : xreal) : xreal :=
  match x, y with
  | NaN, _ | _, NaN => NaN
  | Fin a, Fin b => Fin (a * b)
  | Fin a, PInf | PInf, Fin a => inf_of_sign (Rsign a)
  | Fin a, NInf | NInf, Fin a => inf_of_sign (CompOpp (Rsign a))
  | PInf, PInf | NInf, NInf => PInf
  | PInf, NInf | NInf, PInf => NInf
  end.

Definition xdiv (x y : xreal) : xreal :=
  match x, y with
  | NaN, _ | _, NaN => NaN
  | Fin a, Fin b =>
      match Rsign b with
      | Eq => inf_of_sign (Rsign a)
      | _ => Fin (a / b)
      end
  | Fin _, (PInf | NInf) => Fin 0
  | PInf, Fin b => match Rsign b with Lt => NInf | _ => PInf end
  | NInf, Fin b => match Rsign b with Lt => PInf | _ => NInf end
  | (PInf | NInf), (PInf | NInf) => NaN
  end.

Definition xexp (x : xreal) : xreal :=
  match x with
  | Fin a => Fin (exp a)
  | PInf => PInf
  | NInf => Fin 0
  | NaN => NaN
  end.

Definition xlog (x : xreal) : xreal :=
  match x with
  | Fin a =>
      match Rsign a with
      | Gt => Fin (ln a)
      | Eq => NInf
      | Lt => NaN
      end
  | PInf => PInf
  | NInf | NaN => NaN
  end.

(** ** The MXNet operators used by [hybrid_forward] *)

Module F.

Definition zeros_like {A} (x : list A) : list xreal := map (fun _ => Fin 0) x.
Definition ones_like {A} (x : list A) : list xreal := map (fun _ => Fin 1) x.
Definition zeros_like2 {A} (x : list (list A)) : list (list xreal) :=
  map zeros_like x.

(** Elementwise arithmetic on vectors of shape (batch,). *)
Definition add : list xreal -> list xreal -> list xreal := zip_with xadd.
Definition sub : list xreal -> list xreal -> list xreal := zip_with xsub.
Definition mul : list xreal -> list xreal -> list xreal := zip_with xmul.
Definition div : list xreal -> list xreal -> list xreal := zip_with xdiv.

(** Arithmetic with a scalar operand. *)
Definition sub_scalar (x : list xreal) (c : xreal) : list xreal :=
  map (fun a => xsub a c) x.
Definition scalar_mul (c : xreal) (x : list xreal) : list xreal :=
  map (fun a => xmul c a) x.
Definition mul_scalar2 (x : list (list xreal)) (c : xreal) : list (list xreal) :=
  map (map (fun a => xmul a c)) x.
Definition div_scalar3 (x : list (list (list xreal))) (c : xreal)
  : list (list (list xreal)) :=
  map (map (map (fun a => xdiv a c))) x.

(** [sum] over one axis. *)
Definition sum1 (x : list xreal) : xreal := foldr xadd (Fin 0) x.
Definition sum_axis1 (x : list (list xreal)) : list xreal := map sum1 x.

(** [softmax(x, axis=-1)]: exp(x_i) / sum_j exp(x_j) along the last axis. *)
Definition softmax1 (x : list xreal) : list xreal :=
  let e := map xexp x in
  map (fun a => xdiv a (sum1 e)) e.
Definition softmax (x : list (list (list xreal))) : list (list (list xreal)) :=
  map (map softmax1) x.

(** [pick(x, index, axis=-1)] in MXNet's default mode `clip`: an index
    outside the axis is clipped to its first or last position. *)
Definition pick1 (x : list xreal) (index : Z) : xreal :=
  nth (Z.to_nat (Z.max 0 (Z.min index (Z.of_nat (length x) - 1)))) x NaN.
Definition pick (x : list (list (list xreal))) (index : list (list Z))
  : list (list xreal) :=
  zip_with (zip_with pick1) x index.

Definition log (x : list (list xreal)) : list (list xreal) := map (map xlog) x.

(** [labels != 0]. *)
Definition not_equal_scalar (x : list (list Z)) (c : Z) : list (list bool) :=
  map (map (fun a => negb (a =? c))) x.

(** [where(condition, x, y)]: a selection, entry by entry. *)
Definition where1 (c : list bool) (x y : list xreal) : list xreal :=
  zip_with (fun (b : bool) (p : xreal * xreal) => if b then p.1 else p.2)
           c (zip x y).
Definition where_ (c : list (list bool)) (x y : list (list xreal))
  : list (list xreal) :=
  zip_with (fun cr (p : list xreal * list xreal) => where1 cr p.1 p.2)
           c (zip x y).

End F.

(** ** Python exceptions and results *)

Inductive exn : Type :=
| TypeError
| ValueError
| IndexError
| KeyError
| ZeroDivisionError.

Inductive result (A : Type) : Type :=
| Ok (a : A)
| Raise (e : exn).
Arguments Ok {A} a.
Arguments Raise {A} e.

(** ** [class BatchScorer] *)

Record BatchScorer : Type := {
  score_type : string;
  softmax_temperature : option xreal;
  length_penalty : list xreal -> list xreal;
  brevity_penalty : list xreal -> list xreal -> list xreal;
  constant_length_ratio : option xreal
}.

(** [BatchScorer.__init__]: stores its arguments. *)
Definition BatchScorer_init
    (length_penalty : list xreal -> list xreal)
    (brevity_penalty : list xreal -> list xreal -> list xreal)
    (score_type : string)
    (softmax_temperature : option xreal)
    (constant_length_ratio : option xreal) : result BatchScorer :=
  Ok {| score_type := score_type;
        softmax_temperature := softmax_temperature;
        length_penalty := length_penalty;
        brevity_penalty := brevity_penalty;
        constant_length_ratio := constant_length_ratio |}.

(** [BatchScorer.hybrid_forward].
    logits: (batch, length, vocab_size); labels: (batch, length);
    length_ratio, source_length, target_length: (batch,). *)
Definition hybrid_forward (self : BatchScorer)
    (logits : list (list (list xreal))) (labels : list (list Z))
    (length_ratio source_length target_length : list xreal) : list xreal :=
  let logits :=
    match softmax_temperature self with
    | Some t => F.div_scalar3 logits t
    | None => logits
    end in
  let target_dists := F.softmax logits in
  let probs := F.pick target_dists labels in
  let token_scores := F.log probs in
  let token_scores :=
    if String.eqb (score_type self) C.SCORING_TYPE_NEGLOGPROB
    then F.mul_scalar2 token_scores (Fin (-1))
    else token_scores in
  let scores :=
    F.div (F.sum_axis1 (F.where_ (F.not_equal_scalar labels 0) token_scores
                                 (F.zeros_like2 token_scores)))
          (length_penalty self (F.sub_scalar target_length (Fin 1))) in
  let length_ratio :=
    match constant_length_ratio self with
    | Some c => F.add length_ratio (F.scalar_mul c (F.ones_like scores))
    | None => length_ratio
    end in
  F.sub scores
        (brevity_penalty self (F.sub_scalar target_length (Fin 1))
                         (F.mul length_ratio source_length)).

(** ** Arrays, dictionaries and iterables as the scorer passes them around *)

(** An MXNet array, by element kind and rank. *)
Inductive NDArray : Type :=
| Ids2 (a : list (list Z))
| Ids3 (a : list (list (list Z)))
| Arr1 (a : list xreal)
| Arr3 (a : list (list (list xreal))).

Definition zeros_like (x : NDArray) : NDArray :=
  match x with
  | Ids2 a => Ids2 (map (map (fun _ => 0)) a)
  | Ids3 a => Ids3 (map (map (map (fun _ => 0))) a)
  | Arr1 a => Arr1 (F.zeros_like a)
  | Arr3 a => Arr3 (map F.zeros_like2 a)
  end.

(** A Python iterable: a tuple can be iterated again and again, a generator
    hands out each of its items once. *)
Inductive iterable (A : Type) : Type :=
| Tuple (items : list A)
| Generator (pending : list A).
Arguments Tuple {A} items.
Arguments Generator {A} pending.

(** Iterating to the end: the items seen and the iterable afterwards. *)
Definition drain {A} (it : iterable A) : list A * iterable A :=
  match it with
  | Tuple xs => (xs, Tuple xs)
  | Generator xs => (xs, Generator [])
  end.

(** [(f(i) for i in it)]. *)
Definition genexpr {A B} (f : A -> B) (it : iterable A) : iterable B :=
  Generator (map f (drain it).1).

(** [a, b, c, d = it]. *)
Definition unpack4 {A} (it : iterable A) : result (A * A * A * A) * iterable A :=
  let '(xs, it') := drain it in
  match xs with
  | [a; b; c; d] => (Ok (a, b, c, d), it')
  | _ => (Raise ValueError, it')
  end.

#[global] Instance result_ret : MRet result := fun _ a => Ok a.
#[global] Instance result_bind : MBind result :=
  fun _ _ f m => match m with Ok a => f a | Raise e => Raise e end.

(** [d[key]]. *)
Definition getitem {V} (d : gmap string V) (key : string) : result V :=
  match d !! key with
  | Some v => Ok v
  | None => Raise KeyError
  end.

(** [d.get(key, default)]. *)
Definition dict_get {V} (d : gmap string V) (key : string) (default : V) : V :=
  match d !! key with
  | Some v => v
  | None => default
  end.

(** ** The collaborators of the scorer *)

Module Names.

(** Modelled from the spec: [constants.LOGITS_NAME] and
    [constants.LENRATIO_NAME], the keys of the model's outputs
    "{logits, [length_ratio]}", and [constants.TARGET_LABEL_NAME], the key
    of the "label ids" of a batch. *)
Definition LOGITS_NAME : string := "logits".
Definition LENRATIO_NAME : string := "length_ratio".
Definition TARGET_LABEL_NAME : string := "target_label".

(** Modelled from the spec: [constants.BOS_SYMBOL] and
    [constants.EOS_SYMBOL], whose ids are the "source-vocabulary BOS id"
    and the "target-vocabulary EOS id" of the exclude set. *)
Definition BOS_SYMBOL : string := "<s>".
Definition EOS_SYMBOL : string := "</s>".

End Names.

(** [SockeyeModel], as far as the scorer sees it: its precision and an
    opaque callable of four arrays. *)
Record SockeyeModel : Type := {
  dtype : string;
  forward : NDArray -> NDArray -> NDArray -> NDArray -> result (gmap string NDArray)
}.

(** Calling the model with unpacked arguments: the callable takes exactly
    four positional arguments. *)
Definition call_model (m : SockeyeModel) (args : list NDArray)
  : result (gmap string NDArray) :=
  match args with
  | [source; source_length; target; target_length] =>
      forward m source source_length target target_length
  | _ => Raise TypeError
  end.

(** [batch_scorer(...)]: the block applied to arrays of the ranks that
    [hybrid_forward] documents. *)
Definition call_batch_scorer (bs : BatchScorer)
    (logits labels length_ratio source_length target_length : NDArray)
  : result (list xreal) :=
  match logits, labels, length_ratio, source_length, target_length with
  | Arr3 lg, Ids2 lb, Arr1 lr, Arr1 sl, Arr1 tl =>
      Ok (hybrid_forward bs lg lb lr sl tl)
  | _, _, _, _, _ => Raise TypeError
  end.

(** Modelled from the spec: [data_io.Batch], "aligned tensors {source ids,
    source length, target ids, target length, label ids} with a shared
    leading batch dimension".  A shard is a batch of its own. *)
Record Batch : Type := {
  source : list (list (list Z));
  source_length : list xreal;
  target : list (list Z);
  target_length : list xreal;
  labels : list (list Z)
}.

(** Modelled from the spec: one item of [Batch.shards()], the model inputs
    of a shard as a tuple and its labels by name. *)
Definition shard_item (s : Batch) : list NDArray * gmap string NDArray :=
  ([Ids3 (source s); Arr1 (source_length s); Ids2 (target s);
    Arr1 (target_length s)],
   {[ Names.TARGET_LABEL_NAME := Ids2 (labels s) ]}).

(** Modelled from the spec: [vocab.reverse_vocab], the "reverse mapping
    from id to token" of a vocabulary. *)
Definition reverse_vocab (v : gmap string Z) : gmap Z string :=
  list_to_map (prod_swap <$> map_to_list v).

(** Modelled from the spec: [data_io.ids2tokens], "renders the ids to token
    sequences via the reverse vocabulary, dropping ids in ExcludeSet" and
    "preserves relative order of all remaining ids".  An id that is kept
    and has no token is a failed dictionary lookup. *)
Definition ids2tokens (token_ids : list Z) (vocab_inv : gmap Z string)
    (exclude_set : gset Z) : result (list string) :=
  mapM (fun i => match vocab_inv !! i with
                 | Some tok => Ok tok
                 | None => Raise KeyError
                 end)
       (filter (fun i => i ∉ exclude_set) token_ids).

(** Modelled from the spec: the records of [sockeye.inference] handed to the
    output sink: "input_record carries (sentence id, source tokens);
    output_record carries (sentence id, target text, score, and two
    optional fields ... unused by this core)". *)
Module inference.

Record TranslatorInput : Type := {
  input_sentence_id : Z;
  input_tokens : list string
}.

Record TranslatorOutput : Type := {
  sentence_id : Z;
  translation : string;
  tokens : option (list string);
  attention_matrix : option (list (list xreal));
  score : xreal
}.

End inference.

(** ** Logging, the clock and the output sink *)

Inductive LogArg : Type :=
| ArgInt (n : Z)
| ArgFloat (x : R).

(** One call [logger.info(msg, *args)]. *)
Record LogRecord : Type := {
  msg : string;
  args : list LogArg
}.

(** A formatted log line: the literal text of the message and, in the place
    of each directive, the number it prints ([%d] an integer in decimal,
    [%.4f] a float with four decimals). *)
Inductive piece : Type :=
| Text (s : string)
| Decimal (n : Z)
| Fixed4 (x : R).

Definition flush (text : string) : list piece :=
  match text with
  | EmptyString => []
  | _ => [Text text]
  end.

(** [msg % args] for the two directives the scorer uses. *)
Fixpoint format_pieces (fmt : string) (args : list LogArg) (text : string)
  : option (list piece) :=
  match fmt with
  | EmptyString =>
      match args with
      | [] => Some (flush text)
      | _ => None
      end
  | String "%"%char (String "d"%char rest) =>
      match args with
      | ArgInt n :: args' =>
          option_map (fun ps => flush text ++ Decimal n :: ps)
                     (format_pieces rest args' EmptyString)
      | _ => None
      end
  | String "%"%char (String "."%char (String "4"%char (String "f"%char rest))) =>
      match args with
      | ArgFloat x :: args' =>
          option_map (fun ps => flush text ++ Fixed4 x :: ps)
                     (format_pieces rest args' EmptyString)
      | _ => None
      end
  | String c rest =>
      format_pieces rest args (text +:+ String c EmptyString)
  end.

Definition getMessage (r : LogRecord) : option (list piece) :=
  format_pieces (msg r) (args r) EmptyString.

(** What a run of the scorer does to the outside: the calls of the output
    handler, the log records, and how often the clock was read. *)
Record World : Type := {
  handled : list (inference.TranslatorInput * inference.TranslatorOutput * R);
  logged : list LogRecord;
  clock_reads : nat
}.

Definition M (A : Type) : Type := World -> result A * World.

#[global] Instance M_ret : MRet M := fun _ a w => (Ok a, w).
#[global] Instance M_bind : MBind M :=
  fun _ _ f m w =>
    match m w with
    | (Ok a, w') => f a w'
    | (Raise e, w') => (Raise e, w')
    end.

Definition lift {A} (r : result A) : M A := fun w => (r, w).

(** [time.time()]: the next reading of the clock. *)
Definition time_time (clock : nat -> R) : M R :=
  fun w => (Ok (clock (clock_reads w)),
            {| handled := handled w; logged := logged w;
               clock_reads := S (clock_reads w) |}).

(** [output_handler.handle(t_input, t_output, t_walltime)]. *)
Definition handle (i : inference.TranslatorInput)
    (o : inference.TranslatorOutput) (t : R) : M unit :=
  fun w => (Ok tt,
            {| handled := handled w ++ [(i, o, t)]; logged := logged w;
               clock_reads := clock_reads w |}).

(** [logger.info(msg, *args)]. *)
Definition logger_info (msg : string) (args : list LogArg) : M unit :=
  fun w => (Ok tt,
            {| handled := handled w;
               logged := logged w ++ [{| msg := msg; args := args |}];
               clock_reads := clock_reads w |}).

(** [for x in items: body], the loop's variables passed along. *)
Fixpoint for_ {A S} (items : list A) (body : A -> S -> M S) (s : S) : M S :=
  match items with
  | [] => mret s
  | x :: rest => s' ← body x s; for_ rest body s'
  end.

(** [enumerate(items, start)]. *)
Fixpoint enumerate {A} (items : list A) (start : Z) : list (Z * A) :=
  match items with
  | [] => []
  | x :: rest => (start, x) :: enumerate rest (start + 1)
  end.

(** Python's [x / y] on numbers. *)
Definition true_div (x y : R) : result R :=
  if Req_dec_T y 0 then Raise ZeroDivisionError else Ok (x / y)%R.

(** [math.ceil]. *)
Definition math_ceil (x : R) : Z := 1 - up (- x).

(** [source[:, 0]] of one sentence, shape (length, factors). *)
Definition column0 (source : list (list Z)) : result (list Z) :=
  mapM (fun position => match position with
                        | x :: _ => Ok x
                        | [] => Raise IndexError
                        end) source.

(** [x[0]]. *)
Definition item0 {A} (x : list A) : result A :=
  match x with
  | a :: _ => Ok a
  | [] => Raise IndexError
  end.

(** ** [class Scorer] *)

Section Scorer.

(** The devices to score on, and the two operations of MXNet and [data_io]
    whose result the scorer only passes on: the split of a batch into one
    shard per device and the cast of an array to another precision. *)
Context {Ctx : Type}.
Variable split_and_load : Ctx -> Batch -> list Batch.
Variable astype : string -> NDArray -> NDArray.

Record Scorer : Type := {
  source_vocab_inv : gmap Z string;
  target_vocab_inv : gmap Z string;
  model : SockeyeModel;
  batch_scorer : BatchScorer;
  context : Ctx;
  exclude_list : gset Z
}.

(** [Scorer.__init__]. *)
Definition Scorer_init (model : SockeyeModel) (batch_scorer : BatchScorer)
    (source_vocabs : list (gmap string Z)) (target_vocab : gmap string Z)
    (context : Ctx) : result Scorer :=
  source_vocab0 ← item0 source_vocabs;
  bos ← getitem source_vocab0 Names.BOS_SYMBOL;
  eos ← getitem target_vocab Names.EOS_SYMBOL;
  Ok {| source_vocab_inv := reverse_vocab source_vocab0;
        target_vocab_inv := reverse_vocab target_vocab;
        model := model;
        batch_scorer := batch_scorer;
        context := context;
        exclude_list := {[ bos; eos; C.PAD_ID ]} |}.

(** The body of the loop over shards in [Scorer.score_batch]. *)
Definition score_shard (self : Scorer)
    (item : list NDArray * gmap string NDArray) : result (list xreal) :=
  let '(inputs, labels) := item in
  let inputs := Tuple inputs in
  let inputs :=
    if String.eqb (dtype (model self)) C.DTYPE_FP16
    then genexpr (astype C.DTYPE_FP16) inputs
    else inputs in
  let '(unpacked, inputs) := unpack4 inputs in
  '(source, source_length, target, target_length) ← unpacked;
  outputs ← call_model (model self) (drain inputs).1;
  logits ← getitem outputs Names.LOGITS_NAME;
  label ← getitem labels Names.TARGET_LABEL_NAME;
  let length_ratio :=
    dict_get outputs Names.LENRATIO_NAME (zeros_like source_length) in
  call_batch_scorer (batch_scorer self) logits label length_ratio
                    source_length target_length.

(** [mx.nd.concat( *arrays, dim=0)], which needs at least one array. *)
Definition nd_concat (arrays : list (list xreal)) : result (list xreal) :=
  match arrays with
  | [] => Raise ValueError
  | _ => Ok (concat arrays)
  end.

(** [Scorer.score_batch]. *)
Definition score_batch (self : Scorer) (batch : Batch) : result (list xreal) :=
  let batch := split_and_load (context self) batch in
  batch_scores ← mapM (score_shard self) (map shard_item batch);
  nd_concat batch_scores.

(** The body of the loop over the sentences of a batch in [Scorer.score]. *)
Definition score_sentence (self : Scorer) (batch_time : R)
    (row : list (list Z) * (list Z * xreal)) (sentence_no : Z) : M Z :=
  let '(source, (target, score)) := row in
  let sentence_no := sentence_no + 1 in
  source_ids ← lift (column0 source);
  source_tokens ← lift (ids2tokens source_ids (source_vocab_inv self)
                                   (exclude_list self));
  let target_ids := target in
  target_tokens ← lift (ids2tokens target_ids (target_vocab_inv self)
                                   (exclude_list self));
  let target_string := String.concat C.TOKEN_SEPARATOR target_tokens in
  source0 ← lift (item0 source);
  source00 ← lift (item0 source0);
  score ← (if source00 =? C.PAD_ID then mret NInf
           else target0 ← lift (item0 target);
                if target0 =? C.PAD_ID then mret NInf else mret score);
  handle {| inference.input_sentence_id := sentence_no;
            inference.input_tokens := source_tokens |}
         {| inference.sentence_id := sentence_no;
            inference.translation := target_string;
            inference.tokens := None;
            inference.attention_matrix := None;
            inference.score := score |}
         batch_time;;
  mret sentence_no.

(** The body of the loop over the batches in [Scorer.score]; the loop's
    variables are (total_time, sentence_no, batch_no). *)
Definition score_one_batch (self : Scorer) (clock : nat -> R)
    (item : Z * Batch) (vars : R * Z * Z) : M (R * Z * Z) :=
  let '(batch_no, batch) := item in
  let '(total_time, sentence_no, _) := vars in
  batch_tic ← time_time clock;
  scores ← lift (score_batch self batch);
  now ← time_time clock;
  let batch_time := (now - batch_tic)%R in
  let total_time := (total_time + batch_time)%R in
  sentence_no ← for_ (zip (source batch) (zip (target batch) scores))
                     (score_sentence self batch_time) sentence_no;
  mret (total_time, sentence_no, batch_no).

Definition summary_msg : string :=
  "Processed %d lines in %d batches. Total time: %.4f, sec/sent: %.4f, sent/sec: %.4f".

(** [Scorer.score]. *)
Definition score (self : Scorer) (clock : nat -> R)
    (score_iter : list Batch) : M unit :=
  vars ← for_ (enumerate score_iter 1) (score_one_batch self clock)
              (0%R, 0, 0);
  let '(total_time, sentence_no, batch_no) := vars in
  if negb (sentence_no =? 0) then
    lines_per_batch ← lift (true_div (IZR sentence_no) (IZR batch_no));
    sec_per_sent ← lift (true_div total_time (IZR sentence_no));
    sent_per_sec ← lift (true_div (IZR sentence_no) total_time);
    logger_info summary_msg
                [ArgInt sentence_no; ArgInt (math_ceil lines_per_batch);
                 ArgFloat total_time; ArgFloat sec_per_sent;
                 ArgFloat sent_per_sec]
  else
    logger_info "Processed 0 lines." [].

End Scorer.

Arguments Scorer : clear implicits.

(** ** The score as the specification words it *)

(** Logits of one time step after the optional division by the temperature. *)
Definition scaled_logits (temperature : option xreal) (x : list xreal)
  : list xreal :=
  match temperature with
  | Some t => map (fun a => xdiv a t) x
  | None => x
  end.

(** The natural logarithm of the softmax probability of the gold label. *)
Definition gold_log_probability (temperature : option xreal)
    (logits_t : list xreal) (label : Z) : xreal :=
  xlog (F.pick1 (F.softmax1 (scaled_logits temperature logits_t)) label).

(** What one time step contributes to the score of its sentence. *)
Definition contribution (temperature : option xreal)
    (step : list xreal * Z) : xreal :=
  if decide (step.2 = C.PAD_ID) then Fin 0
  else gold_log_probability temperature step.1 step.2.

(** The sum over the time steps whose label is not PAD. *)
Definition sum_over_non_pad (temperature : option xreal)
    (logits_row : list (list xreal)) (labels_row : list Z) : xreal :=
  F.sum1 (map (fun step => gold_log_probability temperature step.1 step.2)
              (filter (fun step : list xreal * Z => step.2 <> C.PAD_ID)
                      (zip logits_row labels_row))).

(** The score of one row of a shard, for penalties that apply [lp] and [bp]
    to every entry: the steps of [hybrid_forward] on a single sentence. *)
Definition score_row (self : BatchScorer) (lp : xreal -> xreal)
    (bp : xreal -> xreal -> xreal)
    (row : list (list xreal) * (list Z * (xreal * (xreal * xreal)))) : xreal :=
  let '(logits, (labels, (length_ratio, (source_length, target_length)))) := row in
  let logits :=
    match softmax_temperature self with
    | Some t => map (map (fun a => xdiv a t)) logits
    | None => logits
    end in
  let token_scores := map xlog (zip_with F.pick1 (map F.softmax1 logits) labels) in
  let token_scores :=
    if String.eqb (score_type self) C.SCORING_TYPE_NEGLOGPROB
    then map (fun a => xmul a (Fin (-1))) token_scores
    else token_scores in
  let score :=
    xdiv (F.sum1 (F.where1 (map (fun a => negb (a =? 0)) labels) token_scores
                           (F.zeros_like token_scores)))
         (lp (xsub target_length (Fin 1))) in
  let length_ratio :=
    match constant_length_ratio self with
    | Some c => xadd length_ratio (xmul c (Fin 1))
    | None => length_ratio
    end in
  xsub score (bp (xsub target_length (Fin 1)) (xmul length_ratio source_length)).

(** Neutral penalties: a length penalty that is one and a brevity penalty
    that is zero, for every sentence. *)
Definition constant_one (lp : list xreal -> list xreal) : Prop :=
  forall v, lp v = F.ones_like v.

Definition constant_zero (bp : list xreal -> list xreal -> list xreal) : Prop :=
  forall h r, bp h r = zip_with (fun _ _ => Fin 0) h r.

(** The configurations that the specification calls valid. *)
Definition valid_score_type (ty : string) : Prop :=
  ty = C.SCORING_TYPE_LOGPROB \/ ty = C.SCORING_TYPE_NEGLOGPROB.

Definition positive_temperature (t : xreal) : Prop :=
  match t with
  | Fin a => (0 < a)%R
  | PInf => True
  | NInf | NaN => False
  end.

(** ** Sentences, batches and streams as the specification words them *)

(** The first source id (first position, first factor) and the first target
    id of a sentence. *)
Definition first_source_id (source : list (list Z)) : option Z :=
  match source with
  | (x :: _) :: _ => Some x
  | _ => None
  end.

Definition first_target_id (target : list Z) : option Z :=
  match target with
  | x :: _ => Some x
  | [] => None
  end.

(** The first factor of a source: [ids] holds, position by position, the
    id that the position has at factor 0. *)
Definition first_factor (source : list (list Z)) (ids : list Z) : Prop :=
  Forall2 (fun position x => position !! 0%nat = Some x) source ids.

(** Two sources of the same length that agree on factor 0 at every
    position; their other factors are free. *)
Definition same_first_factor (source source' : list (list Z)) : Prop :=
  Forall2 (fun position position' => position !! 0%nat = position' !! 0%nat)
          source source'.

(** A degenerate pair: the source or the target begins with PAD. *)
Definition degenerate (source : list (list Z)) (target : list Z) : Prop :=
  first_source_id source = Some C.PAD_ID \/ first_target_id target = Some C.PAD_ID.

(** An id that can be rendered: it is dropped or it has a token. *)
Definition known (vocab_inv : gmap Z string) (exclude_set : gset Z) (i : Z)
  : Prop :=
  i ∈ exclude_set \/ is_Some (vocab_inv !! i).

(** All arrays of a batch share the size of their batch dimension. *)
Definition aligned (b : Batch) : Prop :=
  length (source_length b) = length (source b)
  /\ length (target b) = length (source b)
  /\ length (target_length b) = length (source b)
  /\ length (labels b) = length (source b).

(** Concatenation of batches along the batch dimension. *)
Definition batch_app (a b : Batch) : Batch :=
  {| source := source a ++ source b;
     source_length := source_length a ++ source_length b;
     target := target a ++ target b;
     target_length := target_length a ++ target_length b;
     labels := labels a ++ labels b |}.

Definition empty_batch : Batch :=
  {| source := []; source_length := []; target := []; target_length := [];
     labels := [] |}.

Definition batch_concat (shards : list Batch) : Batch :=
  foldr batch_app empty_batch shards.

(** The rows of the model inputs. *)
Definition Row : Type := list (list Z) * (xreal * (list Z * xreal)).

Definition rows_of (source : list (list (list Z))) (source_length : list xreal)
    (target : list (list Z)) (target_length : list xreal) : list Row :=
  zip source (zip source_length (zip target target_length)).

(** The outputs of a model: logits and, for a model that predicts it, the
    length ratio. *)
Definition model_outputs (logits : list (list (list xreal)))
    (ratio : option (list xreal)) : gmap string NDArray :=
  match ratio with
  | Some r => <[ Names.LENRATIO_NAME := Arr1 r ]>
                {[ Names.LOGITS_NAME := Arr3 logits ]}
  | None => {[ Names.LOGITS_NAME := Arr3 logits ]}
  end.

(** A model that treats every row of its inputs on its own. *)
Definition row_wise (m : SockeyeModel) (row_logits : Row -> list (list xreal))
    (row_ratio : option (Row -> xreal)) : Prop :=
  forall s sl t tl,
    forward m (Ids3 s) (Arr1 sl) (Ids2 t) (Arr1 tl)
    = Ok (model_outputs (map row_logits (rows_of s sl t tl))
                        (option_map (fun g => map g (rows_of s sl t tl))
                                    row_ratio)).

(** Penalties that treat every entry of their arguments on its own. *)
Definition entrywise1 (lp : list xreal -> list xreal) : Prop :=
  exists f, forall v, lp v = map f v.

Definition entrywise2 (bp : list xreal -> list xreal -> list xreal) : Prop :=
  exists f, forall h r, bp h r = zip_with f h r.

(** The split that leaves the batch in one piece. *)
Definition single_shard {Ctx} (_ : Ctx) (b : Batch) : list Batch := [b].

Definition scores_of (r : result (list xreal)) : list xreal :=
  match r with
  | Ok s => s
  | Raise _ => []
  end.

(** The time the batches of a stream took, as [Scorer.score] adds it up from
    the readings of the clock, two for each batch: [total] is the time so
    far and [next_read] the number of the next reading. *)
Fixpoint elapsed (clock : nat -> R) (total : R) (next_read batches : nat) : R :=
  match batches with
  | O => total
  | S n =>
      elapsed clock (total + (clock (S next_read) - clock next_read))%R
              (S (S next_read)) n
  end.

(** The summary line as the specification words it. *)
Definition spec_summary (N B : Z) (T X Y : R) : list piece :=
  [Text "Processed "; Decimal N; Text " lines in "; Decimal B;
   Text " batches. Total time: "; Fixed4 T; Text " sec, sec/sent: "; Fixed4 X;
   Text ", sent/sec: "; Fixed4 Y].

(** The summary line as the code words it. *)
Definition code_summary (N B : Z) (T X Y : R) : list piece :=
  [Text "Processed "; Decimal N; Text " lines in "; Decimal B;
   Text " batches. Total time: "; Fixed4 T; Text ", sec/sent: "; Fixed4 X;
   Text ", sent/sec: "; Fixed4 Y].

(** The sentences of a stream in the order of their arrival. *)
Definition sentences (stream : list Batch) : list (list (list Z) * list Z) :=
  concat (map (fun b => zip (source b) (target b)) stream).

(** The two log records of [Scorer.score]. *)
Definition summary_record (N B : Z) (T X Y : R) : LogRecord :=
  {| msg := summary_msg;
     args := [ArgInt N; ArgInt B; ArgFloat T; ArgFloat X; ArgFloat Y] |}.

Definition nothing_processed_record : LogRecord :=
  {| msg := "Processed 0 lines."; args := [] |}.

Definition empty_world : World :=
  {| handled := []; logged := []; clock_reads := 0 |}.

(** The world after more calls of the output handler. *)
Definition add_handled (w : World)
    (calls : list (inference.TranslatorInput * inference.TranslatorOutput * R))
  : World :=
  {| handled := handled w ++ calls; logged := logged w;
     clock_reads := clock_reads w |}.

Section ScorerSpec.

Context {Ctx : Type}.
Variable split_and_load : Ctx -> Batch -> list Batch.
Variable astype : string -> NDArray -> NDArray.

(** The record that a sentence gives rise to: the body of the loop over the
    sentences, up to the call of the output handler, as a value. *)
Definition sentence_record (self : Scorer Ctx) (batch_time : R)
    (row : list (list Z) * (list Z * xreal)) (sentence_no : Z)
  : result (inference.TranslatorInput * inference.TranslatorOutput * R) :=
  let '(source, (target, score)) := row in
  source_ids ← column0 source;
  source_tokens ← ids2tokens source_ids (source_vocab_inv self)
                             (exclude_list self);
  target_tokens ← ids2tokens target (target_vocab_inv self)
                             (exclude_list self);
  source0 ← item0 source;
  source00 ← item0 source0;
  score ← (if source00 =? C.PAD_ID then Ok NInf
           else target0 ← item0 target;
                if target0 =? C.PAD_ID then Ok NInf else Ok score);
  Ok ({| inference.input_sentence_id := sentence_no;
         inference.input_tokens := source_tokens |},
      {| inference.sentence_id := sentence_no;
         inference.translation := String.concat C.TOKEN_SEPARATOR target_tokens;
         inference.tokens := None;
         inference.attention_matrix := None;
         inference.score := score |},
      batch_time).

(** The input record of a sentence: its number and the rendering of the
    first factor of its source. *)
Definition render_input (self : Scorer Ctx) (sentence_no : Z)
    (source : list (list Z)) : result inference.TranslatorInput :=
  source_ids ← column0 source;
  source_tokens ← ids2tokens source_ids (source_vocab_inv self)
                             (exclude_list self);
  Ok {| inference.input_sentence_id := sentence_no;
        inference.input_tokens := source_tokens |}.

(** A sentence that can be rendered: it has a first source position, every
    source position has a first factor, the target has a first position,
    and every id to render is known to its vocabulary. *)
Definition renderable (self : Scorer Ctx)
    (sentence : list (list Z) * list Z) : Prop :=
  sentence.1 <> []
  /\ Forall (fun position =>
               match position with
               | x :: _ => known (source_vocab_inv self)
                                 (exclude_list self) x
               | [] => False
               end) sentence.1
  /\ sentence.2 <> []
  /\ Forall (known (target_vocab_inv self) (exclude_list self))
            sentence.2.

(** A batch that can be scored and rendered: [score_batch] returns one score
    for each of its rows, and each of its sentences can be rendered. *)
Definition scorable (self : Scorer Ctx) (b : Batch) : Prop :=
  (exists scores,
      score_batch split_and_load astype self b = Ok scores
      /\ length scores = length (source b))
  /\ length (target b) = length (source b)
  /\ Forall (renderable self) (zip (source b) (target b)).

(** The sentences of a stream in the order of their arrival, each with the
    score that [score_batch] computed for it. *)
Definition scored_sentences (self : Scorer Ctx) (stream : list Batch)
  : list (list (list Z) * (list Z * xreal)) :=
  concat (map (fun b =>
                 zip (source b)
                     (zip (target b)
                          (scores_of (score_batch split_and_load astype
                                                  self b))))
              stream).

(** The calls of the output handler are the records of the numbered
    sentences, one for one and in their order. *)
Definition calls_match (self : Scorer Ctx)
    (calls : list (inference.TranslatorInput * inference.TranslatorOutput * R))
    (numbered : list (Z * (list (list Z) * (list Z * xreal)))) : Prop :=
  Forall2 (fun call s => exists batch_time,
               sentence_record self batch_time s.2 s.1 = Ok call)
          calls numbered.

(** The same for a run that may have been cut short: the calls are the
    records of the first so many of the numbered sentences. *)
Definition calls_match_prefix (self : Scorer Ctx)
    (calls : list (inference.TranslatorInput * inference.TranslatorOutput * R))
    (numbered : list (Z * (list (list Z) * (list Z * xreal)))) : Prop :=
  exists first, first `prefix_of` numbered /\ calls_match self calls first.

End ScorerSpec.

(** The rows of a shard as [hybrid_forward] receives them from a model that
    computes the logits of a row by [row_logits] and, when it predicts one,
    its length ratio by [row_ratio]. *)
Definition scored_rows (row_logits : Row -> list (list xreal))
    (row_ratio : option (Row -> xreal)) (b : Batch)
  : list (list (list xreal) * (list Z * (xreal * (xreal * xreal)))) :=
  let rows :=
    rows_of (source b) (source_length b) (target b) (target_length b) in
  zip (map row_logits rows)
      (zip (labels b)
           (zip (match row_ratio with
                 | Some g => map g rows
                 | None => F.zeros_like (source_length b)
                 end)
                (zip (source_length b) (target_length b)))).

(** ** Further notions for the properties of the scoring code *)

(** A number that is not positive: a finite number that is at most zero,
    minus infinity, or not a number. *)
Definition not_positive (x : xreal) : Prop :=
  match x with
  | Fin a => (a <= 0)%R
  | PInf => False
  | NInf | NaN => True
  end.

(** What an entry of a softmax can be: a finite number from zero to one, or
    not a number. *)
Definition probability (x : xreal) : Prop :=
  match x with
  | Fin p => (0 <= p <= 1)%R
  | NaN => True
  | PInf | NInf => False
  end.

(** What an exponential can be: a finite number that is not negative, plus
    infinity, or not a number. *)
Definition not_negative (x : xreal) : Prop :=
  match x with
  | Fin a => (0 <= a)%R
  | PInf | NaN => True
  | NInf => False
  end.

(** The token scores of one sentence, negated for negative
    log-probabilities, and their sum over the steps that are not padding:
    lines 63 to 76 of [hybrid_forward] on a single row. *)
Definition token_scores_row (ty : string) (temperature : option xreal)
    (lg : list (list xreal)) (lb : list Z) : list xreal :=
  let ts :=
    map xlog (zip_with F.pick1
                (map F.softmax1 (map (scaled_logits temperature) lg)) lb) in
  if String.eqb ty C.SCORING_TYPE_NEGLOGPROB
  then map (fun a => xmul a (Fin (-1))) ts
  else ts.

Definition masked_sum_row (ty : string) (temperature : option xreal)
    (lg : list (list xreal)) (lb : list Z) : xreal :=
  F.sum1 (F.where1 (map (fun a => negb (a =? 0)) lb)
                   (token_scores_row ty temperature lg lb)
                   (F.zeros_like (token_scores_row ty temperature lg lb))).

(** A scorer with another temperature or another constant length ratio. *)
Definition with_temperature (self : BatchScorer) (t : option xreal)
  : BatchScorer :=
  {| score_type := score_type self; softmax_temperature := t;
     length_penalty := length_penalty self;
     brevity_penalty := brevity_penalty self;
     constant_length_ratio := constant_length_ratio self |}.


(** The length ratio that [score_batch] hands to the batch scorer: the one
    among the outputs of the model, or zeros like the source lengths. *)
Definition length_ratio_or_zeros (outputs : gmap string NDArray)
    (source_length : list xreal) : NDArray :=
  dict_get outputs Names.LENRATIO_NAME (Arr1 (F.zeros_like source_length)).

(** What the model gives for a shard in full precision: it is called on the
    four arrays of the shard as they are. *)
Definition model_on (m : SockeyeModel) (s : Batch)
  : result (gmap string NDArray) :=
  forward m (Ids3 (source s)) (Arr1 (source_length s)) (Ids2 (target s))
          (Arr1 (target_length s)).

(** The model raises on a shard, or its outputs hold no logits. *)
Definition model_fails_on (m : SockeyeModel) (s : Batch) (e : exn) : Prop :=
  model_on m s = Raise e
  \/ (e = KeyError
      /\ exists outputs,
           model_on m s = Ok outputs
           /\ outputs !! Names.LOGITS_NAME = None).

(** The model gives logits and, if any, a length ratio of rank one for a
    shard, and the batch scorer turns them into [scores]. *)
Definition shard_scores (m : SockeyeModel) (bs : BatchScorer) (s : Batch)
    (scores : list xreal) : Prop :=
  exists outputs lg ratio,
    model_on m s = Ok outputs
    /\ outputs !! Names.LOGITS_NAME = Some (Arr3 lg)
    /\ length_ratio_or_zeros outputs (source_length s) = Arr1 ratio
    /\ scores = hybrid_forward bs lg (labels s) ratio (source_length s)
                               (target_length s).

(** The world after a step of [Scorer.score]: more calls of the output
    handler, after those there were, and the same log. *)
Definition grows (w w' : World) : Prop :=
  handled w `prefix_of` handled w' /\ logged w' = logged w.

Section ScoreParts.

Context {Ctx : Type}.
Variable split_and_load : Ctx -> Batch -> list Batch.
Variable astype : string -> NDArray -> NDArray.

(** The loop over the batches of [Scorer.score], from its first state. *)
Definition score_loop (self : Scorer Ctx) (clock : nat -> R)
    (stream : list Batch) : M (R * Z * Z) :=
  for_ (enumerate stream 1) (score_one_batch split_and_load astype self clock)
       (0%R, 0, 0).

End ScoreParts.

(** The end of [Scorer.score], after the loop. *)
Definition score_summary (vars : R * Z * Z) : M unit :=
  let '(total_time, sentence_no, batch_no) := vars in
  if negb (sentence_no =? 0) then
    lines_per_batch ← lift (true_div (IZR sentence_no) (IZR batch_no));
    sec_per_sent ← lift (true_div total_time (IZR sentence_no));
    sent_per_sec ← lift (true_div (IZR sentence_no) total_time);
    logger_info summary_msg
                [ArgInt sentence_no; ArgInt (math_ceil lines_per_batch);
                 ArgFloat total_time; ArgFloat sec_per_sent;
                 ArgFloat sent_per_sec]
  else
    logger_info "Processed 0 lines." [].

(** ** Concrete penalties, models, vocabularies and batches *)

Module Examples.

(** A length penalty and a brevity penalty that leave the score alone. *)
Definition neutral_length_penalty (v : list xreal) : list xreal :=
  F.ones_like v.
Definition neutral_brevity_penalty (h r : list xreal) : list xreal :=
  zip_with (fun _ _ => Fin 0) h r.

Definition xmin (x y : xreal) : xreal :=
  match x, y with
  | NaN, _ | _, NaN => NaN
  | NInf, _ | _, NInf => NInf
  | PInf, z | z, PInf => z
  | Fin a, Fin b => Fin (Rmin a b)
  end.

(** A brevity penalty of weight one: min(0, 1 - reference / hypothesis). *)
Definition log_brevity_penalty1 (hyp ref : xreal) : xreal :=
  xmul (Fin 1) (xmin (Fin 0) (xsub (Fin 1) (xdiv ref hyp))).

Definition log_brevity_penalty (h r : list xreal) : list xreal :=
  zip_with log_brevity_penalty1 h r.

(** A model that treats every row on its own. *)
Definition row_model (dtype : string) (row_logits : Row -> list (list xreal))
    (row_ratio : option (Row -> xreal)) : SockeyeModel :=
  {| dtype := dtype;
     forward := fun a b c d =>
       match a, b, c, d with
       | Ids3 s, Arr1 sl, Ids2 t, Arr1 tl =>
           Ok (model_outputs (map row_logits (rows_of s sl t tl))
                             (option_map (fun g => map g (rows_of s sl t tl))
                                         row_ratio))
       | _, _, _, _ => Raise TypeError
       end |}.

(** Logits that give every word of a vocabulary of six the same weight, at
    every target position. *)
Definition uniform_logits (row : Row) : list (list xreal) :=
  map (fun _ => [Fin 0; Fin 0; Fin 0; Fin 0; Fin 0; Fin 0]) row.2.2.1.

(** Logits that rule out every word but padding. *)
Definition padding_only_logits (row : Row) : list (list xreal) :=
  map (fun _ => [Fin 0; NInf; NInf; NInf; NInf; NInf]) row.2.2.1.

Definition vocabulary : gmap string Z :=
  list_to_map [("<pad>", 0); ("<unk>", 1); ("<s>", 2); ("</s>", 3);
               ("a", 4); ("b", 5)]%string.

(** A cast that leaves the values as they are. *)
Definition same_values (dtype : string) (x : NDArray) : NDArray := x.

(** Devices that take the given numbers of rows, and a last one that takes
    the rest.  The split of [data_io] gives every device the same number of
    rows and refuses a batch that cannot be split so; the examples split a
    batch of two rows between two devices, and leave every other batch to
    one device. *)
Definition take_rows (n : nat) (b : Batch) : Batch :=
  {| source := take n (source b); source_length := take n (source_length b);
     target := take n (target b); target_length := take n (target_length b);
     labels := take n (labels b) |}.

Definition drop_rows (n : nat) (b : Batch) : Batch :=
  {| source := drop n (source b); source_length := drop n (source_length b);
     target := drop n (target b); target_length := drop n (target_length b);
     labels := drop n (labels b) |}.

Fixpoint split_rows (sizes : list nat) (b : Batch) : list Batch :=
  match sizes with
  | [] => [b]
  | n :: rest => take_rows n b :: split_rows rest (drop_rows n b)
  end.

Definition neutral_scorer (ty : string) : BatchScorer :=
  {| score_type := ty; softmax_temperature := None;
     length_penalty := neutral_length_penalty;
     brevity_penalty := neutral_brevity_penalty;
     constant_length_ratio := None |}.

(** A scorer of log-probabilities with a brevity penalty and a constant
    length ratio of one. *)
Definition constant_ratio_scorer : BatchScorer :=
  {| score_type := C.SCORING_TYPE_LOGPROB; softmax_temperature := None;
     length_penalty := neutral_length_penalty;
     brevity_penalty := log_brevity_penalty;
     constant_length_ratio := Some (Fin 1) |}.

(** The logits and labels of one sentence with two words and a padded
    step, over a vocabulary of six. *)
Definition sentence_logits : list (list (list xreal)) :=
  [ [ [Fin 0; Fin 0; Fin 0; Fin 0; Fin 0; Fin 0];
      [Fin 0; Fin 0; Fin 0; Fin 0; Fin 0; Fin 0];
      [Fin 0; Fin 0; Fin 0; Fin 0; Fin 0; Fin 0] ] ].

Definition sentence_labels : list (list Z) := [ [4; 3; 0] ].

Definition scorer (m : SockeyeModel) (devices : list nat) : Scorer (list nat) :=
  {| source_vocab_inv := reverse_vocab vocabulary;
     target_vocab_inv := reverse_vocab vocabulary;
     model := m;
     batch_scorer := neutral_scorer C.SCORING_TYPE_LOGPROB;
     context := devices;
     exclude_list := {[ 2; 3; C.PAD_ID ]} |}.

(** Two sentences with two source factors: "a b" with target "a b", and a
    pair that is all padding. *)
Definition two_sentences : Batch :=
  {| source := [ [[4; 1]; [5; 1]; [3; 1]]; [[0; 0]; [0; 0]; [0; 0]] ];
     source_length := [Fin 3; Fin 0];
     target := [ [2; 4; 5]; [0; 0; 0] ];
     target_length := [Fin 3; Fin 0];
     labels := [ [4; 5; 3]; [0; 0; 0] ] |}.

(** One sentence, "b" with target "a". *)
Definition one_sentence : Batch :=
  {| source := [ [[5; 1]; [3; 1]] ];
     source_length := [Fin 2];
     target := [ [2; 4] ];
     target_length := [Fin 2];
     labels := [ [4; 3] ] |}.

(** A clock that advances by one second from reading to reading. *)
Definition ticking (n : nat) : R := INR n.

(** A model in full precision that gives every word the same weight, on
    one device, and on two devices of which each takes one row of a batch
    of two; the same model in reduced precision on two devices; and a model
    that rules out every word, on one device. *)
Definition uniform_scorer : Scorer (list nat) :=
  scorer (row_model "float32" uniform_logits None) [].

Definition sharded_scorer : Scorer (list nat) :=
  scorer (row_model "float32" uniform_logits None) [1%nat].

Definition reduced_precision_scorer : Scorer (list nat) :=
  scorer (row_model C.DTYPE_FP16 uniform_logits None) [1%nat].

Definition padding_only_scorer : Scorer (list nat) :=
  scorer (row_model "float32" padding_only_logits None) [].

Definition stream : list Batch := [two_sentences; one_sentence].

(** The sentences of [stream] with other second source factors. *)
Definition other_factors : list Batch :=
  [ {| source := [ [[4; 7]; [5; 8]; [3; 9]]; [[0; 1]; [0; 1]; [0; 1]] ];
       source_length := [Fin 3; Fin 0];
       target := [ [2; 4; 5]; [0; 0; 0] ];
       target_length := [Fin 3; Fin 0];
       labels := [ [4; 5; 3]; [0; 0; 0] ] |};
    {| source := [ [[5; 0]; [3; 0]] ];
       source_length := [Fin 2];
       target := [ [2; 4] ];
       target_length := [Fin 2];
       labels := [ [4; 3] ] |} ].

End Examples.

(** ** Further concrete models, clocks and batches *)

Module MoreExamples.

(** A model that scores single sentences as the uniform model does and
    raises on batches of more than one row. *)
Definition picky_model : SockeyeModel :=
  {| dtype := "float32";
     forward := fun a b c d =>
       match a with
       | Ids3 s =>
           if (length s <=? 1)%nat
           then forward (Examples.row_model "float32" Examples.uniform_logits
                                            None) a b c d
           else Raise ValueError
       | _ => Raise TypeError
       end |}.

(** The picky model on one device. *)
Definition picky_scorer : Scorer (list nat) := Examples.scorer picky_model [].

(** A clock that stands still. *)
Definition frozen (n : nat) : R := 0%R.

(** One step of logits that are not numbers, for the sentence of
    [Examples.sentence_logits]. *)
Definition padding_logits : list (list (list xreal)) :=
  [ [ [NaN; NaN; NaN; NaN; NaN; NaN] ] ].

(** The logits and labels of one sentence whose second word the model
    rules out, and whose last step has logits that are not finite. *)
Definition ruled_out_logits : list (list (list xreal)) :=
  [ [ [Fin 0; Fin 0; Fin 0; Fin 0; Fin 0; Fin 0];
      [Fin 0; Fin 0; Fin 0; Fin 0; Fin 0; NInf];
      [Fin 0; Fin 0; Fin 0; PInf; Fin 0; Fin 0] ] ].

Definition ruled_out_labels : list (list Z) := [ [4; 5; 3] ].

(** A scorer with a brevity penalty that looks at its arguments. *)
Definition penalised_scorer (constant : option xreal) : BatchScorer :=
  {| score_type := C.SCORING_TYPE_LOGPROB; softmax_temperature := None;
     length_penalty := Examples.neutral_length_penalty;
     brevity_penalty := Examples.log_brevity_penalty;
     constant_length_ratio := constant |}.

End MoreExamples.

(** * Properties *)

(** ** Extended reals *)

Lemma Rsign_pos (a : R) : (0 < a)%R -> Rsign a = Gt.
Proof.
  intros H. unfold Rsign.
  destruct (total_order_T a 0) as [[Hlt | Heq] | Hgt]; try reflexivity; lra.
Qed.

Lemma Rsign_neg (a : R) : (a < 0)%R -> Rsign a = Lt.
Proof.
  intros H. unfold Rsign.
  destruct (total_order_T a 0) as [[Hlt | Heq] | Hgt]; try reflexivity; lra.
Qed.

Lemma Rsign_zero : Rsign 0 = Eq.
Proof.
  unfold Rsign.
  destruct (total_order_T 0 0) as [[Hlt | Heq] | Hgt]; try reflexivity; lra.
Qed.

Lemma Rsign_opp (a : R) : Rsign (- a) = CompOpp (Rsign a).
Proof.
  unfold Rsign.
  destruct (total_order_T a 0) as [[Hlt | Heq] | Hgt];
    destruct (total_order_T (- a) 0) as [[Hlt' | Heq'] | Hgt'];
    try reflexivity; lra.
Qed.

Lemma xopp_inf_of_sign (c : comparison) :
  xopp (inf_of_sign c) = inf_of_sign (CompOpp c).
Proof. destruct c; reflexivity. Qed.

Lemma xadd_0_l (x : xreal) : xadd (Fin 0) x = x.
Proof. destruct x; simpl; try reflexivity. f_equal. lra. Qed.

Lemma xsub_0_r (x : xreal) : xsub x (Fin 0) = x.
Proof. destruct x; unfold xsub; simpl; try reflexivity. f_equal. lra. Qed.

Lemma xdiv_1_r (x : xreal) : xdiv x (Fin 1) = x.
Proof.
  destruct x; simpl; try rewrite Rsign_pos by lra; try reflexivity.
  f_equal. field.
Qed.

Lemma xmul_m1_r (x : xreal) : xmul x (Fin (-1)) = xopp x.
Proof.
  destruct x; simpl; try rewrite Rsign_neg by lra; try reflexivity.
  f_equal. lra.
Qed.

Lemma xopp_0 : xopp (Fin 0) = Fin 0.
Proof. simpl. f_equal. lra. Qed.

Lemma xadd_opp (x y : xreal) : xadd (xopp x) (xopp y) = xopp (xadd x y).
Proof. destruct x, y; simpl; try reflexivity. f_equal. lra. Qed.

Lemma xdiv_opp_l (x y : xreal) : xdiv (xopp x) y = xopp (xdiv x y).
Proof.
  destruct x, y; simpl; try reflexivity.
  - destruct (Rsign x0) eqn:E; simpl.
    + rewrite Rsign_opp. symmetry. apply xopp_inf_of_sign.
    + f_equal. unfold Rdiv. lra.
    + f_equal. unfold Rdiv. lra.
  - f_equal. lra.
  - f_equal. lra.
  - destruct (Rsign x); reflexivity.
  - destruct (Rsign x); reflexivity.
Qed.

Lemma xsub_opp_0 (x : xreal) : xsub (xopp x) (Fin 0) = xopp (xsub x (Fin 0)).
Proof. now rewrite !xsub_0_r. Qed.

(** ** [BatchScorer]: negated token scores *)

Lemma where1_opp (c : list bool) (r : list xreal) :
  F.where1 c (map (fun a => xmul a (Fin (-1))) r)
           (F.zeros_like (map (fun a => xmul a (Fin (-1))) r))
  = map xopp (F.where1 c r (F.zeros_like r)).
Proof.
  revert r. induction c as [| b c IH]; intros [| a r]; try reflexivity.
  unfold F.where1, F.zeros_like in *. simpl. f_equal.
  - destruct b; simpl.
    + apply xmul_m1_r.
    + symmetry. apply xopp_0.
  - apply IH.
Qed.

Lemma where_opp (c : list (list bool)) (ts : list (list xreal)) :
  F.where_ c (F.mul_scalar2 ts (Fin (-1)))
           (F.zeros_like2 (F.mul_scalar2 ts (Fin (-1))))
  = map (map xopp) (F.where_ c ts (F.zeros_like2 ts)).
Proof.
  revert ts. induction c as [| cr c IH]; intros [| r ts]; try reflexivity.
  unfold F.where_, F.zeros_like2, F.mul_scalar2 in *. simpl. f_equal.
  - apply where1_opp.
  - apply IH.
Qed.

Lemma sum1_opp (r : list xreal) : F.sum1 (map xopp r) = xopp (F.sum1 r).
Proof.
  induction r as [| a r IH]; simpl.
  - symmetry. apply xopp_0.
  - unfold F.sum1 in *. simpl. rewrite IH. apply xadd_opp.
Qed.

Lemma sum_axis1_opp (x : list (list xreal)) :
  F.sum_axis1 (map (map xopp) x) = map xopp (F.sum_axis1 x).
Proof.
  unfold F.sum_axis1. induction x as [| r x IH]; simpl; [reflexivity |].
  f_equal; [apply sum1_opp | apply IH].
Qed.

Lemma div_opp_l (a b : list xreal) :
  F.div (map xopp a) b = map xopp (F.div a b).
Proof.
  unfold F.div. revert b. induction a as [| x a IH]; intros [| y b];
    try reflexivity.
  simpl. f_equal; [apply xdiv_opp_l | apply IH].
Qed.

Lemma sub_zeros_opp (a h r : list xreal) :
  F.sub (map xopp a) (zip_with (fun _ _ => Fin 0) h r)
  = map xopp (F.sub a (zip_with (fun _ _ => Fin 0) h r)).
Proof.
  unfold F.sub. revert h r.
  induction a as [| x a IH]; intros [| y h] [| z r]; try reflexivity.
  cbn. f_equal; [apply xsub_opp_0 | apply IH].
Qed.

Lemma ones_like_map {A B} (f : A -> B) (l : list A) :
  F.ones_like (map f l) = F.ones_like l.
Proof. unfold F.ones_like. now rewrite map_map. Qed.

Lemma hybrid_forward_neglogprob
    (lp : list xreal -> list xreal) (bp : list xreal -> list xreal -> list xreal)
    (temperature constant : option xreal)
    (logits : list (list (list xreal))) (labels : list (list Z))
    (length_ratio source_length target_length : list xreal) :
  constant_zero bp ->
  hybrid_forward {| score_type := C.SCORING_TYPE_NEGLOGPROB;
                    softmax_temperature := temperature;
                    length_penalty := lp; brevity_penalty := bp;
                    constant_length_ratio := constant |}
                 logits labels length_ratio source_length target_length
  = map xopp
      (hybrid_forward {| score_type := C.SCORING_TYPE_LOGPROB;
                         softmax_temperature := temperature;
                         length_penalty := lp; brevity_penalty := bp;
                         constant_length_ratio := constant |}
                      logits labels length_ratio source_length target_length).
Proof.
  intros Hbp. unfold hybrid_forward. cbn [score_type softmax_temperature
    length_penalty brevity_penalty constant_length_ratio].
  change (String.eqb C.SCORING_TYPE_NEGLOGPROB C.SCORING_TYPE_NEGLOGPROB)
    with true.
  change (String.eqb C.SCORING_TYPE_LOGPROB C.SCORING_TYPE_NEGLOGPROB)
    with false.
  cbv iota zeta. rewrite !Hbp.
  rewrite where_opp, sum_axis1_opp, div_opp_l, ones_like_map.
  apply sub_zeros_opp.
Qed.

(** C9: for the same inputs, when the length penalty is the constant one and
    the brevity penalty the constant zero, the scores under score type
    negative-log-probability are the negated scores under score type
    log-probability. *)
Theorem neglogprob_is_negated_logprob
    (lp : list xreal -> list xreal) (bp : list xreal -> list xreal -> list xreal)
    (temperature constant : option xreal)
    (logits : list (list (list xreal))) (labels : list (list Z))
    (length_ratio source_length target_length : list xreal) :
  constant_one lp ->
  constant_zero bp ->
  hybrid_forward {| score_type := C.SCORING_TYPE_NEGLOGPROB;
                    softmax_temperature := temperature;
                    length_penalty := lp; brevity_penalty := bp;
                    constant_length_ratio := constant |}
                 logits labels length_ratio source_length target_length
  = map xopp
      (hybrid_forward {| score_type := C.SCORING_TYPE_LOGPROB;
                         softmax_temperature := temperature;
                         length_penalty := lp; brevity_penalty := bp;
                         constant_length_ratio := constant |}
                      logits labels length_ratio source_length target_length).
Proof. intros _ Hbp. now apply hybrid_forward_neglogprob. Qed.

(** ** [BatchScorer]: log-probability under neutral penalties *)

Lemma masked_row_sum (temperature : option xreal)
    (lg : list (list xreal)) (lb : list Z) :
  F.sum1 (F.where1 (map (fun a => negb (a =? 0)) lb)
            (map xlog (zip_with F.pick1
                         (map F.softmax1 (map (scaled_logits temperature) lg)) lb))
            (F.zeros_like
               (map xlog (zip_with F.pick1
                            (map F.softmax1 (map (scaled_logits temperature) lg))
                            lb))))
  = sum_over_non_pad temperature lg lb.
Proof.
  unfold sum_over_non_pad. revert lb.
  induction lg as [| x lg IH]; intros [| y lb]; try reflexivity.
  specialize (IH lb). unfold F.where1, F.zeros_like, F.sum1 in *.
  cbn [map zip_with zip foldr fst snd]. rewrite IH. clear IH.
  rewrite filter_cons. cbn [fst snd]. unfold C.PAD_ID.
  destruct (Z.eqb_spec y 0) as [-> | Hy].
  - rewrite decide_False by (intros H; now apply H).
    cbn [negb]. apply xadd_0_l.
  - rewrite decide_True by assumption. reflexivity.
Qed.

Lemma masked_row_contributions (temperature : option xreal)
    (lg : list (list xreal)) (lb : list Z) :
  sum_over_non_pad temperature lg lb
  = F.sum1 (map (contribution temperature) (zip lg lb)).
Proof.
  unfold sum_over_non_pad, contribution, F.sum1.
  induction (zip lg lb) as [| [x y] l IH]; [reflexivity |].
  rewrite filter_cons. cbn [map foldr fst snd]. rewrite <- IH.
  destruct (decide (y = C.PAD_ID)) as [-> | Hy].
  - rewrite decide_False by (intros H; now apply H).
    symmetry. apply xadd_0_l.
  - rewrite decide_True by assumption. reflexivity.
Qed.

Lemma scale_logits (temperature : option xreal)
    (logits : list (list (list xreal))) :
  match temperature with
  | Some t => F.div_scalar3 logits t
  | None => logits
  end = map (map (scaled_logits temperature)) logits.
Proof.
  destruct temperature as [t |]; simpl.
  - reflexivity.
  - induction logits as [| r logits IH]; simpl; [reflexivity |].
    rewrite <- IH. f_equal. now rewrite map_id.
Qed.

Lemma masked_sums (temperature : option xreal)
    (logits : list (list (list xreal))) (labels : list (list Z)) :
  let token_scores :=
    F.log (F.pick (F.softmax (map (map (scaled_logits temperature)) logits))
                  labels) in
  F.sum_axis1 (F.where_ (F.not_equal_scalar labels 0) token_scores
                        (F.zeros_like2 token_scores))
  = zip_with (sum_over_non_pad temperature) logits labels.
Proof.
  cbv zeta. revert labels.
  induction logits as [| lg logits IH]; intros [| lb labels]; try reflexivity.
  specialize (IH labels).
  unfold F.sum_axis1, F.where_, F.not_equal_scalar, F.log, F.pick, F.softmax,
    F.zeros_like2 in *.
  cbn [map zip_with zip fst snd]. f_equal.
  - apply masked_row_sum.
  - apply IH.
Qed.

Lemma div_ones_like {A} (a : list xreal) (z : list A) :
  (length a <= length z)%nat -> F.div a (F.ones_like z) = a.
Proof.
  unfold F.div, F.ones_like. revert z.
  induction a as [| x a IH]; intros [| y z] Hlen; simpl in *;
    try reflexivity; try lia.
  f_equal; [apply xdiv_1_r | apply IH; lia].
Qed.

Lemma sub_zip_zeros (a h r : list xreal) :
  (length a <= length h)%nat -> (length a <= length r)%nat ->
  F.sub a (zip_with (fun _ _ => Fin 0) h r) = a.
Proof.
  unfold F.sub. revert h r.
  induction a as [| x a IH]; intros [| y h] [| z r] Hh Hr; cbn in *;
    try reflexivity; try lia.
  f_equal; [apply xsub_0_r | apply IH; lia].
Qed.

Lemma length_sub_scalar (x : list xreal) (c : xreal) :
  length (F.sub_scalar x c) = length x.
Proof. unfold F.sub_scalar. apply length_map. Qed.

(** C2: when the length penalty is the constant one and the brevity penalty
    the constant zero, the log-probability score of every sentence is the
    sum, over the time steps whose label is not PAD, of the natural
    logarithm of the softmax probability (of the logits, divided by the
    temperature if there is one) of the gold label; a step whose label is
    PAD contributes exactly zero. *)
Theorem logprob_is_sum_over_non_pad_steps
    (self : BatchScorer)
    (logits : list (list (list xreal))) (labels : list (list Z))
    (length_ratio source_length target_length : list xreal) :
  score_type self = C.SCORING_TYPE_LOGPROB ->
  constant_one (length_penalty self) ->
  constant_zero (brevity_penalty self) ->
  length labels = length logits ->
  length length_ratio = length logits ->
  length source_length = length logits ->
  length target_length = length logits ->
  hybrid_forward self logits labels length_ratio source_length target_length
  = zip_with (sum_over_non_pad (softmax_temperature self)) logits labels
  /\ forall lg lb,
       sum_over_non_pad (softmax_temperature self) lg lb
       = F.sum1 (map (contribution (softmax_temperature self)) (zip lg lb)).
Proof.
  intros Htype Hlp Hbp Hlabels Hratio Hsource Htarget. split.
  - unfold hybrid_forward. rewrite Htype, Hlp, Hbp.
    change (String.eqb C.SCORING_TYPE_LOGPROB C.SCORING_TYPE_NEGLOGPROB)
      with false.
    cbv iota zeta. rewrite scale_logits, masked_sums.
    set (sums := zip_with (sum_over_non_pad (softmax_temperature self))
                          logits labels).
    assert (Hsums : length sums = length logits).
    { subst sums. rewrite length_zip_with. lia. }
    rewrite div_ones_like by (rewrite length_sub_scalar; lia).
    apply sub_zip_zeros.
    + rewrite length_sub_scalar. lia.
    + unfold F.mul, F.add, F.scalar_mul, F.ones_like.
      destruct (constant_length_ratio self);
        rewrite ?length_zip_with, ?length_map; lia.
  - intros lg lb. apply masked_row_contributions.
Qed.

(** ** [BatchScorer]: every row is scored on its own *)

Lemma hybrid_forward_rows (self : BatchScorer) (lp : xreal -> xreal)
    (bp : xreal -> xreal -> xreal)
    (logits : list (list (list xreal))) (labels : list (list Z))
    (length_ratio source_length target_length : list xreal) :
  (forall v, length_penalty self v = map lp v) ->
  (forall h r, brevity_penalty self h r = zip_with bp h r) ->
  hybrid_forward self logits labels length_ratio source_length target_length
  = map (score_row self lp bp)
        (zip logits (zip labels (zip length_ratio
                                     (zip source_length target_length)))).
Proof.
  intros Hlp Hbp. unfold hybrid_forward. rewrite Hlp, Hbp. clear Hlp Hbp.
  unfold score_row.
  destruct self as [ty temp lp' bp' const].
  cbn [score_type softmax_temperature constant_length_ratio].
  revert labels length_ratio source_length target_length.
  induction logits as [| lg logits IH];
    intros [| lb labels] [| r length_ratio] [| sl source_length]
           [| tl target_length];
    try (destruct temp, const, (String.eqb ty C.SCORING_TYPE_NEGLOGPROB);
         reflexivity).
  specialize (IH labels length_ratio source_length target_length).
  destruct temp as [t |], const as [c |],
    (String.eqb ty C.SCORING_TYPE_NEGLOGPROB);
    cbn in IH |- *; f_equal; exact IH.
Qed.

(** ** [Scorer.score_batch] *)

Section ScoreBatch.

Context {Ctx : Type}.
Variable split_and_load : Ctx -> Batch -> list Batch.
Variable astype : string -> NDArray -> NDArray.
Variable self : Scorer Ctx.

Lemma full_precision_eqb :
  dtype (model self) <> C.DTYPE_FP16 ->
  String.eqb (dtype (model self)) C.DTYPE_FP16 = false.
Proof. intros H. now apply String.eqb_neq. Qed.

Lemma getitem_logits (lg : list (list (list xreal))) (ratio : option (list xreal)) :
  getitem (model_outputs lg ratio) Names.LOGITS_NAME = Ok (Arr3 lg).
Proof.
  unfold getitem, model_outputs. destruct ratio as [r |].
  - rewrite lookup_insert_ne by discriminate.
    now rewrite lookup_singleton_eq.
  - now rewrite lookup_singleton_eq.
Qed.

Lemma get_length_ratio (lg : list (list (list xreal)))
    (ratio : option (list xreal)) (default : list xreal) :
  dict_get (model_outputs lg ratio) Names.LENRATIO_NAME (Arr1 default)
  = Arr1 (match ratio with Some r => r | None => default end).
Proof.
  unfold dict_get, model_outputs. destruct ratio as [r |].
  - now rewrite lookup_insert_eq.
  - now rewrite lookup_singleton_ne by discriminate.
Qed.

(** In full precision a shard is scored by [hybrid_forward] on the outputs
    of the model. *)
Lemma score_shard_row_wise (row_logits : Row -> list (list xreal))
    (row_ratio : option (Row -> xreal)) (s : Batch) :
  dtype (model self) <> C.DTYPE_FP16 ->
  row_wise (model self) row_logits row_ratio ->
  let rows :=
    rows_of (source s) (source_length s) (target s) (target_length s) in
  score_shard astype self (shard_item s)
  = Ok (hybrid_forward (batch_scorer self) (map row_logits rows) (labels s)
          (match row_ratio with
           | Some g => map g rows
           | None => F.zeros_like (source_length s)
           end)
          (source_length s) (target_length s)).
Proof.
  intros Hdtype Hmodel rows. unfold score_shard, shard_item.
  rewrite (full_precision_eqb Hdtype).
  cbn [unpack4 drain mbind result_bind fst call_model].
  rewrite Hmodel. fold rows. cbn [mbind result_bind].
  rewrite getitem_logits. cbn [mbind result_bind].
  unfold getitem at 1. rewrite lookup_singleton_eq. cbn [mbind result_bind].
  cbn [zeros_like]. rewrite get_length_ratio.
  unfold call_batch_scorer. destruct row_ratio; reflexivity.
Qed.

Lemma mapM_score_shard (row_logits : Row -> list (list xreal))
    (row_ratio : option (Row -> xreal)) (lp : xreal -> xreal)
    (bp : xreal -> xreal -> xreal) (shards : list Batch) :
  dtype (model self) <> C.DTYPE_FP16 ->
  row_wise (model self) row_logits row_ratio ->
  (forall v, length_penalty (batch_scorer self) v = map lp v) ->
  (forall h r, brevity_penalty (batch_scorer self) h r = zip_with bp h r) ->
  mapM (score_shard astype self) (map shard_item shards)
  = Ok (map (fun s => map (score_row (batch_scorer self) lp bp)
                          (scored_rows row_logits row_ratio s)) shards).
Proof.
  intros Hdtype Hmodel Hlp Hbp.
  induction shards as [| s shards IH]; [reflexivity |].
  cbn [map mapM]. rewrite (score_shard_row_wise _ _ s Hdtype Hmodel).
  cbn [mbind result_bind]. rewrite IH. cbn [mbind result_bind mret result_ret].
  rewrite (hybrid_forward_rows _ lp bp) by assumption. reflexivity.
Qed.

End ScoreBatch.

Lemma aligned_app (a b : Batch) :
  aligned a -> aligned b -> aligned (batch_app a b).
Proof.
  unfold aligned, batch_app. cbn. rewrite !length_app. lia.
Qed.

Lemma aligned_concat (shards : list Batch) :
  Forall aligned shards -> aligned (batch_concat shards).
Proof.
  induction 1 as [| s shards Hs _ IH]; cbn.
  - unfold aligned. cbn. lia.
  - now apply aligned_app.
Qed.

Lemma zip_app_aligned {A B} (l1 l2 : list A) (k1 k2 : list B) :
  length l1 = length k1 -> zip (l1 ++ l2) (k1 ++ k2) = zip l1 k1 ++ zip l2 k2.
Proof.
  revert k1. induction l1 as [| x l1 IH]; intros [| y k1] H; cbn in *;
    try discriminate; [reflexivity |].
  f_equal. apply IH. lia.
Qed.

Lemma length_zip {A B} (l : list A) (k : list B) :
  length l = length k -> length (zip l k) = length l.
Proof.
  revert k. induction l as [| x l IH]; intros [| y k] H; cbn in *;
    try discriminate; [reflexivity |].
  f_equal. apply IH. lia.
Qed.

Ltac solve_length :=
  unfold F.zeros_like, Row in *;
  repeat first [ lia | rewrite length_map | rewrite length_zip ].

Lemma length_rows_of (b : Batch) :
  aligned b ->
  length (rows_of (source b) (source_length b) (target b) (target_length b))
  = length (source b).
Proof.
  intros (H1 & H2 & H3 & H4). unfold rows_of, Row.
  solve_length.
Qed.

Lemma rows_of_app (a b : Batch) :
  aligned a ->
  rows_of (source (batch_app a b)) (source_length (batch_app a b))
          (target (batch_app a b)) (target_length (batch_app a b))
  = rows_of (source a) (source_length a) (target a) (target_length a)
    ++ rows_of (source b) (source_length b) (target b) (target_length b).
Proof.
  intros (H1 & H2 & H3 & H4). unfold rows_of, batch_app. cbn.
  rewrite !zip_app_aligned; try reflexivity; solve_length.
Qed.

Lemma length_scored_rows (f : Row -> list (list xreal))
    (g : option (Row -> xreal)) (b : Batch) :
  aligned b -> length (scored_rows f g b) = length (source b).
Proof.
  intros Hb. pose proof (length_rows_of b Hb) as Hrows.
  destruct Hb as (H1 & H2 & H3 & H4). unfold scored_rows.
  assert (Hratio : length (match g with
                           | Some g0 => map g0 (rows_of (source b) (source_length b)
                                                        (target b) (target_length b))
                           | None => F.zeros_like (source_length b)
                           end) = length (source b)).
  { destruct g; [now rewrite length_map |].
    unfold F.zeros_like. now rewrite length_map. }
  fold (rows_of (source b) (source_length b) (target b) (target_length b)) in *.
  rewrite length_zip; rewrite ?length_map; [exact Hrows | ].
  rewrite Hrows. rewrite length_zip; [lia |].
  rewrite H4. rewrite length_zip; [lia |].
  rewrite Hratio. rewrite length_zip; lia.
Qed.

Lemma scored_rows_app (f : Row -> list (list xreal))
    (g : option (Row -> xreal)) (a b : Batch) :
  aligned a ->
  scored_rows f g (batch_app a b) = scored_rows f g a ++ scored_rows f g b.
Proof.
  intros Ha. pose proof (length_rows_of a Ha) as Hrows.
  unfold scored_rows. rewrite (rows_of_app a b Ha).
  destruct Ha as (H1 & H2 & H3 & H4).
  cbn [batch_app labels source_length target_length].
  set (rows_a := rows_of (source a) (source_length a) (target a)
                         (target_length a)) in *.
  set (rows_b := rows_of (source b) (source_length b) (target b)
                         (target_length b)) in *.
  set (ratio_a := match g with
                  | Some g0 => map g0 rows_a
                  | None => F.zeros_like (source_length a)
                  end).
  set (ratio_b := match g with
                  | Some g0 => map g0 rows_b
                  | None => F.zeros_like (source_length b)
                  end).
  assert (Hratio :
    match g with
    | Some g0 => map g0 (rows_a ++ rows_b)
    | None => F.zeros_like (source_length a ++ source_length b)
    end = ratio_a ++ ratio_b).
  { subst ratio_a ratio_b. destruct g; [apply map_app |].
    unfold F.zeros_like. apply map_app. }
  assert (Hlen : length ratio_a = length (source a)).
  { subst ratio_a. destruct g; [now rewrite length_map |].
    unfold F.zeros_like. now rewrite length_map. }
  rewrite Hratio, map_app.
  rewrite (zip_app_aligned (source_length a) _ (target_length a) _) by lia.
  rewrite (zip_app_aligned ratio_a _ (zip (source_length a) (target_length a)) _)
    by (rewrite length_zip; lia).
  rewrite (zip_app_aligned (labels a) _ (zip ratio_a _) _)
    by (rewrite length_zip; [lia | rewrite length_zip; lia]).
  rewrite (zip_app_aligned (map f rows_a) _ (zip (labels a) _) _).
  - reflexivity.
  - rewrite length_map, Hrows.
    rewrite length_zip; [lia |].
    rewrite length_zip; [lia | rewrite length_zip; lia].
Qed.

Lemma scored_rows_concat (f : Row -> list (list xreal))
    (g : option (Row -> xreal)) (shards : list Batch) :
  Forall aligned shards ->
  scored_rows f g (batch_concat shards)
  = concat (map (scored_rows f g) shards).
Proof.
  induction 1 as [| s shards Hs _ IH]; cbn [batch_concat foldr map concat].
  - unfold scored_rows. cbn. now destruct g.
  - rewrite scored_rows_app by assumption. f_equal. exact IH.
Qed.

Lemma concat_map_map {A B C} (f : B -> C) (h : A -> list B) (l : list A) :
  concat (map (fun a => map f (h a)) l) = map f (concat (map h l)).
Proof.
  induction l as [| a l IH]; cbn; [reflexivity |].
  now rewrite IH, map_app.
Qed.

Section ScoreBatchRows.

Context {Ctx : Type}.
Variable split_and_load : Ctx -> Batch -> list Batch.
Variable astype : string -> NDArray -> NDArray.
Variable self : Scorer Ctx.
Variable row_logits : Row -> list (list xreal).
Variable row_ratio : option (Row -> xreal).
Variable lp : xreal -> xreal.
Variable bp : xreal -> xreal -> xreal.

Hypothesis full_precision : dtype (model self) <> C.DTYPE_FP16.
Hypothesis model_row_wise : row_wise (model self) row_logits row_ratio.
Hypothesis lp_entrywise :
  forall v, length_penalty (batch_scorer self) v = map lp v.
Hypothesis bp_entrywise :
  forall h r, brevity_penalty (batch_scorer self) h r = zip_with bp h r.

(** The scores of a batch are the scores of its rows, shard after shard. *)
Lemma score_batch_rows (b : Batch) :
  split_and_load (context self) b <> [] ->
  Forall aligned (split_and_load (context self) b) ->
  score_batch split_and_load astype self b
  = Ok (map (score_row (batch_scorer self) lp bp)
            (scored_rows row_logits row_ratio
                         (batch_concat (split_and_load (context self) b)))).
Proof.
  intros Hne Hal. unfold score_batch.
  rewrite (mapM_score_shard astype self row_logits row_ratio lp bp)
    by assumption.
  cbn [mbind result_bind]. unfold nd_concat.
  destruct (split_and_load (context self) b) as [| s shards] eqn:E;
    [contradiction |].
  cbn [map]. f_equal.
  change (concat (map (fun s0 => map (score_row (batch_scorer self) lp bp)
                                      (scored_rows row_logits row_ratio s0))
                      (s :: shards))
          = map (score_row (batch_scorer self) lp bp)
              (scored_rows row_logits row_ratio (batch_concat (s :: shards)))).
  rewrite concat_map_map. f_equal. symmetry.
  now apply scored_rows_concat.
Qed.

End ScoreBatchRows.

Lemma scored_rows_single (f : Row -> list (list xreal))
    (g : option (Row -> xreal)) (b : Batch) :
  aligned b -> scored_rows f g (batch_concat [b]) = scored_rows f g b.
Proof.
  intros Hb. rewrite scored_rows_concat by (constructor; [exact Hb | constructor]).
  cbn. apply app_nil_r.
Qed.

(** C4: for every batch and every split of it into K >= 1 shards that cover
    its rows in index order, [score_batch] returns one score per row of the
    batch, the scores of the shards concatenated in shard order, and the
    same vector as with a single shard.  The model runs in full precision
    and treats every row on its own, as do the penalties. *)
Theorem sharding_preserves_scores {Ctx : Type}
    (split_and_load : Ctx -> Batch -> list Batch)
    (astype : string -> NDArray -> NDArray) (self : Scorer Ctx)
    (row_logits : Row -> list (list xreal)) (row_ratio : option (Row -> xreal))
    (b : Batch) :
  dtype (model self) <> C.DTYPE_FP16 ->
  row_wise (model self) row_logits row_ratio ->
  entrywise1 (length_penalty (batch_scorer self)) ->
  entrywise2 (brevity_penalty (batch_scorer self)) ->
  split_and_load (context self) b <> [] ->
  Forall aligned (split_and_load (context self) b) ->
  batch_concat (split_and_load (context self) b) = b ->
  exists scores,
    score_batch split_and_load astype self b = Ok scores
    /\ length scores = length (source b)
    /\ scores = concat (map (fun s => scores_of (score_batch single_shard astype
                                                             self s))
                            (split_and_load (context self) b))
    /\ score_batch single_shard astype self b = Ok scores.
Proof.
  intros Hdtype Hmodel [lp Hlp] [bp Hbp] Hne Hal Hcover.
  assert (Hb : aligned b) by (rewrite <- Hcover; now apply aligned_concat).
  assert (Hsingle : forall s, aligned s ->
            score_batch single_shard astype self s
            = Ok (map (score_row (batch_scorer self) lp bp)
                      (scored_rows row_logits row_ratio s))).
  { intros s Hs.
    rewrite (score_batch_rows single_shard astype self row_logits row_ratio
               lp bp Hdtype Hmodel Hlp Hbp s).
    - unfold single_shard. now rewrite scored_rows_single.
    - discriminate.
    - constructor; [exact Hs | constructor]. }
  exists (map (score_row (batch_scorer self) lp bp)
              (scored_rows row_logits row_ratio b)).
  split; [| split; [| split]].
  - rewrite (score_batch_rows split_and_load astype self row_logits row_ratio
               lp bp Hdtype Hmodel Hlp Hbp b Hne Hal).
    now rewrite Hcover.
  - rewrite length_map. now apply length_scored_rows.
  - rewrite <- Hcover at 1. rewrite scored_rows_concat by exact Hal.
    rewrite <- concat_map_map. f_equal.
    apply map_ext_in. intros s Hs.
    rewrite Hsingle; [reflexivity |].
    rewrite Forall_forall in Hal. apply Hal.
    now apply list_elem_of_In.
  - now apply Hsingle.
Qed.

(** ** Reduced precision *)

(** The generator of the cast inputs is used up by the unpacking, so the
    model is called without arguments. *)
Lemma cast_inputs_used_up {A B} (f : A -> B) (a b c d : A) :
  unpack4 (genexpr f (Tuple [a; b; c; d]))
  = (Ok (f a, f b, f c, f d), Generator []).
Proof. reflexivity. Qed.

Lemma score_shard_reduced_precision {Ctx : Type}
    (astype : string -> NDArray -> NDArray) (self : Scorer Ctx) (s : Batch) :
  dtype (model self) = C.DTYPE_FP16 ->
  score_shard astype self (shard_item s) = Raise TypeError.
Proof.
  intros Hdtype. unfold score_shard, shard_item. rewrite Hdtype.
  change (String.eqb C.DTYPE_FP16 C.DTYPE_FP16) with true. cbv iota.
  rewrite cast_inputs_used_up. reflexivity.
Qed.

(** C7: when the model is configured for reduced precision, [score_batch]
    raises on every batch with at least one shard: no model, whatever its
    [forward], is ever given the cast inputs. *)
Theorem reduced_precision_model_gets_no_inputs {Ctx : Type}
    (split_and_load : Ctx -> Batch -> list Batch)
    (astype : string -> NDArray -> NDArray) (self : Scorer Ctx) (b : Batch) :
  dtype (model self) = C.DTYPE_FP16 ->
  split_and_load (context self) b <> [] ->
  score_batch split_and_load astype self b = Raise TypeError.
Proof.
  intros Hdtype Hne. unfold score_batch.
  destruct (split_and_load (context self) b) as [| s shards];
    [contradiction |].
  cbn [map mapM]. rewrite (score_shard_reduced_precision astype self s Hdtype).
  reflexivity.
Qed.

(** In full precision the model receives the four inputs of the shard as
    they are, and zeros stand in for a length ratio that it omits. *)
Lemma full_precision_model_inputs {Ctx : Type}
    (astype : string -> NDArray -> NDArray) (self : Scorer Ctx) (s : Batch)
    (lg : list (list (list xreal))) :
  dtype (model self) <> C.DTYPE_FP16 ->
  forward (model self) (Ids3 (source s)) (Arr1 (source_length s))
          (Ids2 (target s)) (Arr1 (target_length s))
  = Ok (model_outputs lg None) ->
  score_shard astype self (shard_item s)
  = Ok (hybrid_forward (batch_scorer self) lg (labels s)
                       (F.zeros_like (source_length s))
                       (source_length s) (target_length s)).
Proof.
  intros Hdtype Hmodel. unfold score_shard, shard_item.
  rewrite (proj2 (String.eqb_neq _ _) Hdtype).
  cbn [unpack4 drain mbind result_bind fst call_model].
  rewrite Hmodel. cbn [mbind result_bind].
  rewrite getitem_logits. cbn [mbind result_bind].
  unfold getitem at 1. rewrite lookup_singleton_eq. cbn [mbind result_bind].
  cbn [zeros_like]. rewrite get_length_ratio. reflexivity.
Qed.

(** ** [Scorer.score]: one sentence *)

Section ScoreSentence.

Context {Ctx : Type}.
Variable self : Scorer Ctx.

Lemma score_sentence_record (batch_time : R)
    (row : list (list Z) * (list Z * xreal)) (sentence_no : Z) (w : World) :
  score_sentence self batch_time row sentence_no w
  = match sentence_record self batch_time row (sentence_no + 1) with
    | Ok call => (Ok (sentence_no + 1), add_handled w [call])
    | Raise e => (Raise e, w)
    end.
Proof.
  destruct row as [src [tgt sc]]. unfold score_sentence, sentence_record.
  unfold mbind, M_bind, lift, result_bind, mret, M_ret, result_ret.
  destruct (column0 src) as [ids | e]; [| reflexivity].
  destruct (ids2tokens ids _ _) as [stoks | e]; [| reflexivity].
  destruct (ids2tokens tgt _ _) as [ttoks | e]; [| reflexivity].
  destruct (item0 src) as [src0 | e]; [| reflexivity].
  destruct (item0 src0) as [src00 | e]; [| reflexivity].
  destruct (src00 =? C.PAD_ID); [reflexivity |].
  destruct (item0 tgt) as [tgt0 | e]; [| reflexivity].
  destruct (tgt0 =? C.PAD_ID); reflexivity.
Qed.

(** What the record of a sentence holds. *)
Lemma sentence_record_inv (batch_time : R) (src : list (list Z))
    (tgt : list Z) (sc : xreal) (sentence_no : Z)
    (i : inference.TranslatorInput) (o : inference.TranslatorOutput) (t : R) :
  sentence_record self batch_time (src, (tgt, sc)) sentence_no = Ok (i, o, t) ->
  inference.input_sentence_id i = sentence_no
  /\ inference.sentence_id o = sentence_no
  /\ t = batch_time
  /\ (exists ids, column0 src = Ok ids
                  /\ ids2tokens ids (source_vocab_inv self) (exclude_list self)
                     = Ok (inference.input_tokens i))
  /\ (exists toks, ids2tokens tgt (target_vocab_inv self) (exclude_list self)
                   = Ok toks
                   /\ inference.translation o
                      = String.concat C.TOKEN_SEPARATOR toks)
  /\ inference.tokens o = None
  /\ inference.attention_matrix o = None
  /\ (degenerate src tgt -> inference.score o = NInf)
  /\ (~ degenerate src tgt -> inference.score o = sc).
Proof.
  unfold sentence_record, mbind, result_bind.
  destruct (column0 src) as [ids | e] eqn:Hcol; [| discriminate].
  destruct (ids2tokens ids _ _) as [stoks | e] eqn:Hstoks; [| discriminate].
  destruct (ids2tokens tgt _ _) as [ttoks | e] eqn:Httoks; [| discriminate].
  destruct src as [| [| s00 src0] src']; cbn [item0]; try discriminate.
  unfold degenerate. cbn [first_source_id].
  destruct (Z.eqb_spec s00 C.PAD_ID) as [Hs | Hs].
  - intros [= <- <- <-]. cbn. repeat split; eauto.
    intros H. exfalso. apply H. left. now rewrite Hs.
  - destruct tgt as [| t0 tgt']; cbn [item0]; try discriminate.
    cbn [first_target_id].
    destruct (Z.eqb_spec t0 C.PAD_ID) as [Ht | Ht].
    + intros [= <- <- <-]. cbn. repeat split; eauto.
      intros H. exfalso. apply H. right. now rewrite Ht.
    + intros [= <- <- <-]. cbn. repeat split; eauto.
      intros [[=] | [=]]; contradiction.
Qed.

Lemma ids2tokens_known (ids : list Z) (vocab_inv : gmap Z string)
    (exclude_set : gset Z) :
  Forall (known vocab_inv exclude_set) ids ->
  exists toks, ids2tokens ids vocab_inv exclude_set = Ok toks.
Proof.
  unfold ids2tokens. induction 1 as [| i ids Hi _ [toks IH]].
  - now exists [].
  - rewrite filter_cons. destruct (decide (i ∉ exclude_set)) as [Hin | Hin].
    + destruct Hi as [Hex | [tok Htok]]; [contradiction |].
      cbn [mapM]. rewrite Htok. cbn [mbind result_bind]. rewrite IH.
      now exists (tok :: toks).
    + now exists toks.
Qed.

Lemma column0_known (src : list (list Z)) :
  Forall (fun position =>
            match position with
            | x :: _ => known (source_vocab_inv self) (exclude_list self) x
            | [] => False
            end) src ->
  exists ids, column0 src = Ok ids
              /\ Forall (known (source_vocab_inv self) (exclude_list self)) ids.
Proof.
  unfold column0. induction 1 as [| p src Hp _ (ids & IH & Hids)].
  - exists []. split; [reflexivity | constructor].
  - destruct p as [| x p]; [contradiction |].
    exists (x :: ids). cbn [mapM mbind result_bind]. rewrite IH.
    split; [reflexivity | now constructor].
Qed.

(** A sentence that can be rendered has a record. *)
Lemma sentence_record_renderable (batch_time : R) (src : list (list Z))
    (tgt : list Z) (sc : xreal) (sentence_no : Z) :
  renderable self (src, tgt) ->
  exists call, sentence_record self batch_time (src, (tgt, sc)) sentence_no
               = Ok call.
Proof.
  intros (Hsrc & Hpos & Htgt & Hids). cbn [fst snd] in *.
  destruct (column0_known src Hpos) as (ids & Hcol & Hknown).
  destruct (ids2tokens_known ids _ _ Hknown) as [stoks Hstoks].
  destruct (ids2tokens_known tgt _ _ Hids) as [ttoks Httoks].
  unfold sentence_record. rewrite Hcol. cbn [mbind result_bind].
  rewrite Hstoks. cbn [mbind result_bind]. rewrite Httoks.
  cbn [mbind result_bind].
  destruct src as [| [| s00 src0] src']; [contradiction | |].
  - inversion Hpos; contradiction.
  - destruct tgt as [| t0 tgt']; [contradiction |].
    cbn [item0 mbind result_bind].
    destruct (s00 =? C.PAD_ID); cbn [mbind result_bind];
      [eexists; reflexivity |].
    destruct (t0 =? C.PAD_ID); eexists; reflexivity.
Qed.

End ScoreSentence.

(** ** [Scorer.score]: batches and streams *)

Lemma enumerate_app {A} (l k : list A) (start : Z) :
  enumerate (l ++ k) start
  = enumerate l start ++ enumerate k (start + Z.of_nat (length l)).
Proof.
  revert start. induction l as [| x l IH]; intros start; cbn [enumerate app length].
  - f_equal. lia.
  - rewrite IH. do 3 f_equal. lia.
Qed.

Lemma length_enumerate {A} (l : list A) (start : Z) :
  length (enumerate l start) = length l.
Proof.
  revert start. induction l as [| x l IH]; intros start; cbn; [reflexivity |].
  now rewrite IH.
Qed.

Lemma lookup_enumerate {A} (l : list A) (start : Z) (k : nat) :
  enumerate l start !! k = (fun x => (start + Z.of_nat k, x)) <$> l !! k.
Proof.
  revert start k. induction l as [| x l IH]; intros start [| k]; cbn;
    try reflexivity.
  - do 2 f_equal. lia.
  - rewrite IH. destruct (l !! k); cbn; [| reflexivity].
    do 2 f_equal. lia.
Qed.

Lemma Forall_zip_scores {A B C} (P : A * B -> Prop) (s : list A) (t : list B)
    (sc : list C) :
  Forall P (zip s t) ->
  Forall (fun r : A * (B * C) => P (r.1, r.2.1)) (zip s (zip t sc)).
Proof.
  revert t sc. induction s as [| x s IH]; intros [| y t] [| z sc] H;
    cbn in *; try constructor.
  - now inversion H.
  - apply IH. now inversion H.
Qed.

Section ScoreStream.

Context {Ctx : Type}.
Variable split_and_load : Ctx -> Batch -> list Batch.
Variable astype : string -> NDArray -> NDArray.
Variable self : Scorer Ctx.
Variable clock : nat -> R.

Lemma for_sentences (batch_time : R)
    (rows : list (list (list Z) * (list Z * xreal))) :
  forall (sentence_no : Z) (w : World),
  Forall (fun r => renderable self (r.1, r.2.1)) rows ->
  exists calls,
    for_ rows (score_sentence self batch_time) sentence_no w
    = (Ok (sentence_no + Z.of_nat (length rows)), add_handled w calls)
    /\ calls_match self calls (enumerate rows (sentence_no + 1)).
Proof.
  induction rows as [| [src [tgt sc]] rows IH]; intros n w Hrows.
  - exists []. split; [| constructor].
    cbn. unfold mret, M_ret, add_handled. destruct w. cbn.
    rewrite app_nil_r. do 3 f_equal. lia.
  - inversion Hrows as [| ? ? Hrow Hrest]; subst.
    destruct (sentence_record_renderable self batch_time src tgt sc (n + 1) Hrow)
      as [call Hcall].
    destruct (IH (n + 1) (add_handled w [call]) Hrest) as (calls & Hrun & Hcalls).
    exists (call :: calls). split.
    + cbn [for_]. unfold mbind at 1. unfold M_bind.
      rewrite score_sentence_record, Hcall, Hrun.
      unfold add_handled. cbn.
      f_equal; [f_equal; lia | f_equal; now rewrite <- app_assoc].
    + cbn [enumerate]. constructor; [now exists batch_time | exact Hcalls].
Qed.

Lemma score_one_batch_scorable (batch_no : Z) (b : Batch)
    (total_time : R) (sentence_no old_batch_no : Z) (w : World) :
  scorable split_and_load astype self b ->
  exists calls,
    score_one_batch split_and_load astype self clock (batch_no, b)
                    (total_time, sentence_no, old_batch_no) w
    = (Ok ((total_time + (clock (S (clock_reads w)) - clock (clock_reads w)))%R,
           sentence_no + Z.of_nat (length (scored_sentences split_and_load astype
                                                             self [b])),
           batch_no),
       {| handled := handled w ++ calls; logged := logged w;
          clock_reads := S (S (clock_reads w)) |})
    /\ calls_match self calls
         (enumerate (scored_sentences split_and_load astype self [b])
                    (sentence_no + 1)).
Proof.
  intros ((scores & Hscores & Hlen) & Htgt & Hrows).
  unfold scored_sentences. cbn [map concat]. rewrite Hscores, app_nil_r.
  cbn [scores_of].
  set (rows := zip (source b) (zip (target b) scores)).
  set (bt := (clock (S (clock_reads w)) - clock (clock_reads w))%R).
  destruct (for_sentences bt rows sentence_no
              {| handled := handled w; logged := logged w;
                 clock_reads := S (S (clock_reads w)) |})
    as (calls & Hrun & Hcalls).
  { subst rows. now apply Forall_zip_scores. }
  exists calls. split; [| exact Hcalls].
  unfold score_one_batch.
  unfold mbind at 1. unfold M_bind. cbn [time_time].
  unfold mbind at 1. unfold M_bind. unfold lift at 1. rewrite Hscores.
  unfold mbind at 1. unfold M_bind. cbn [time_time clock_reads handled logged].
  unfold mbind at 1. unfold M_bind. fold rows. fold bt. rewrite Hrun.
  reflexivity.
Qed.

Lemma scored_sentences_cons (b : Batch) (stream : list Batch) :
  scored_sentences split_and_load astype self (b :: stream)
  = scored_sentences split_and_load astype self [b]
    ++ scored_sentences split_and_load astype self stream.
Proof. unfold scored_sentences. cbn. now rewrite app_nil_r. Qed.

Lemma for_batches (stream : list Batch) :
  forall (start : Z) (total_time : R) (sentence_no batch_no : Z) (w : World),
  Forall (scorable split_and_load astype self) stream ->
  exists calls,
    for_ (enumerate stream start)
         (score_one_batch split_and_load astype self clock)
         (total_time, sentence_no, batch_no) w
    = (Ok (elapsed clock total_time (clock_reads w) (length stream),
           sentence_no + Z.of_nat (length (scored_sentences split_and_load astype
                                                             self stream)),
           match stream with
           | [] => batch_no
           | _ => start + Z.of_nat (length stream) - 1
           end),
       {| handled := handled w ++ calls; logged := logged w;
          clock_reads := clock_reads w + 2 * length stream |})
    /\ calls_match self calls
         (enumerate (scored_sentences split_and_load astype self stream)
                    (sentence_no + 1)).
Proof.
  induction stream as [| b stream IH]; intros start tt n bno w Hstream.
  - exists []. split; [| constructor].
    cbn. unfold mret, M_ret. destruct w. cbn.
    rewrite app_nil_r, Nat.add_0_r, Z.add_0_r. reflexivity.
  - inversion Hstream as [| ? ? Hb Hrest]; subst.
    destruct (score_one_batch_scorable start b tt n bno w Hb)
      as (calls1 & Hrun1 & Hcalls1).
    edestruct (IH (start + 1)) as (calls2 & Hrun2 & Hcalls2); [exact Hrest |].
    exists (calls1 ++ calls2). split.
    + cbn [enumerate for_]. unfold mbind at 1. unfold M_bind.
      rewrite Hrun1, Hrun2. cbn [handled logged clock_reads elapsed length].
      rewrite (scored_sentences_cons b stream), length_app, app_assoc.
      f_equal; [f_equal; f_equal; [f_equal |] | f_equal]; try lia.
      destruct stream; cbn [length]; lia.
    + rewrite (scored_sentences_cons b stream), enumerate_app.
      apply Forall2_app; [exact Hcalls1 |].
      replace (n + 1 + Z.of_nat (length (scored_sentences split_and_load astype
                                                           self [b])))
        with (n + Z.of_nat (length (scored_sentences split_and_load astype
                                                     self [b])) + 1) by lia.
      exact Hcalls2.
Qed.

End ScoreStream.

Lemma getMessage_summary (N B : Z) (T X Y : R) :
  getMessage (summary_record N B T X Y) = Some (code_summary N B T X Y).
Proof. reflexivity. Qed.

Lemma getMessage_nothing_processed :
  getMessage nothing_processed_record = Some [Text "Processed 0 lines."].
Proof. reflexivity. Qed.

Lemma code_summary_is_not_spec_summary (N B N' B' : Z) (T X Y T' X' Y' : R) :
  code_summary N B T X Y <> spec_summary N' B' T' X' Y'.
Proof. unfold code_summary, spec_summary. intros H. discriminate H. Qed.

Section ScoreRun.

Context {Ctx : Type}.
Variable split_and_load : Ctx -> Batch -> list Batch.
Variable astype : string -> NDArray -> NDArray.
Variable self : Scorer Ctx.
Variable clock : nat -> R.

(** A run of [Scorer.score] on a stream of batches that can be scored and
    rendered. *)
Lemma score_run (stream : list Batch) :
  Forall (scorable split_and_load astype self) stream ->
  let N := Z.of_nat (length (scored_sentences split_and_load astype self stream)) in
  let B := Z.of_nat (length stream) in
  let T := elapsed clock 0 0 (length stream) in
  exists calls,
    calls_match self calls
      (enumerate (scored_sentences split_and_load astype self stream) 1)
    /\ score split_and_load astype self clock stream empty_world
       = if N =? 0 then
           (Ok tt, {| handled := calls; logged := [nothing_processed_record];
                      clock_reads := 2 * length stream |})
         else if Req_dec_T T 0 then
           (Raise ZeroDivisionError,
            {| handled := calls; logged := []; clock_reads := 2 * length stream |})
         else
           (Ok tt, {| handled := calls;
                      logged := [summary_record N (math_ceil (IZR N / IZR B)) T
                                                (T / IZR N) (IZR N / T)];
                      clock_reads := 2 * length stream |}).
Proof.
  intros Hstream N B T.
  destruct (for_batches split_and_load astype self clock stream 1 0%R 0 0
              empty_world Hstream) as (calls & Hrun & Hcalls).
  exists calls. split; [exact Hcalls |].
  cbn [handled logged clock_reads empty_world app Nat.add] in Hrun.
  rewrite Z.add_0_l in Hrun. fold N T in Hrun.
  unfold score. unfold mbind at 1. unfold M_bind. rewrite Hrun.
  destruct (Z.eqb_spec N 0) as [HN | HN]; cbn [negb].
  - reflexivity.
  - assert (Hne : stream <> []).
    { intros ->. apply HN. reflexivity. }
    assert (HB : match stream with
                 | [] => 0
                 | _ => 1 + Z.of_nat (length stream) - 1
                 end = B).
    { destruct stream; [contradiction | subst B; lia]. }
    rewrite HB.
    assert (HB0 : IZR B <> 0%R).
    { apply not_0_IZR. subst B. destruct stream; [contradiction | cbn; lia]. }
    assert (HN0 : IZR N <> 0%R) by now apply not_0_IZR.
    unfold mbind at 1. unfold M_bind, lift, true_div.
    destruct (Req_dec_T (IZR B) 0) as [? | _]; [contradiction |].
    unfold mbind at 1. unfold M_bind.
    destruct (Req_dec_T (IZR N) 0) as [? | _]; [contradiction |].
    unfold mbind at 1. unfold M_bind.
    destruct (Req_dec_T T 0) as [HT | HT]; reflexivity.
Qed.

End ScoreRun.

(** ** [Scorer.score]: runs that may be cut short *)

Section AnyRun.

Context {Ctx : Type}.
Variable split_and_load : Ctx -> Batch -> list Batch.
Variable astype : string -> NDArray -> NDArray.
Variable self : Scorer Ctx.
Variable clock : nat -> R.

Lemma calls_match_is_prefix
    (calls : list (inference.TranslatorInput * inference.TranslatorOutput * R))
    (numbered : list (Z * (list (list Z) * (list Z * xreal)))) :
  calls_match self calls numbered -> calls_match_prefix self calls numbered.
Proof. intros H. exists numbered. split; [reflexivity | exact H]. Qed.

Lemma for_sentences_any (batch_time : R)
    (rows : list (list (list Z) * (list Z * xreal))) :
  forall (sentence_no : Z) (w : World),
  exists calls r,
    for_ rows (score_sentence self batch_time) sentence_no w
    = (r, add_handled w calls)
    /\ calls_match_prefix self calls (enumerate rows (sentence_no + 1))
    /\ forall n, r = Ok n ->
                 n = sentence_no + Z.of_nat (length rows)
                 /\ calls_match self calls (enumerate rows (sentence_no + 1)).
Proof.
  induction rows as [| row rows IH]; intros n w.
  - exists [], (Ok n). split; [| split].
    + cbn. unfold mret, M_ret, add_handled. destruct w. cbn.
      now rewrite app_nil_r.
    + apply calls_match_is_prefix. constructor.
    + intros n' [= <-]. split; [cbn; lia | constructor].
  - cbn [for_]. unfold mbind at 1. unfold M_bind.
    rewrite score_sentence_record.
    destruct (sentence_record self batch_time row (n + 1)) as [call | e] eqn:Hcall.
    + destruct (IH (n + 1) (add_handled w [call])) as (calls & r & Hrun & Hpre & Hok).
      exists (call :: calls), r. split; [| split].
      * rewrite Hrun. unfold add_handled. cbn. now rewrite <- app_assoc.
      * destruct Hpre as (first & Hfirst & Hmatch).
        exists ((n + 1, row) :: first). split.
        -- cbn [enumerate]. now apply prefix_cons.
        -- constructor; [now exists batch_time | exact Hmatch].
      * intros n' Hr. destruct (Hok n' Hr) as [Hn Hmatch]. split.
        -- cbn [length]. lia.
        -- cbn [enumerate]. constructor; [now exists batch_time | exact Hmatch].
    + exists [], (Raise e). split; [| split].
      * unfold add_handled. destruct w. cbn. now rewrite app_nil_r.
      * exists []. split; [apply prefix_nil | constructor].
      * intros n' [=].
Qed.

Lemma score_one_batch_any (batch_no : Z) (b : Batch)
    (total_time : R) (sentence_no old_batch_no : Z) (w : World) :
  exists calls r w',
    score_one_batch split_and_load astype self clock (batch_no, b)
                    (total_time, sentence_no, old_batch_no) w
    = (r, w')
    /\ handled w' = handled w ++ calls
    /\ calls_match_prefix self calls
         (enumerate (scored_sentences split_and_load astype self [b])
                    (sentence_no + 1))
    /\ forall tt n bno,
         r = Ok (tt, n, bno) ->
         n = sentence_no
             + Z.of_nat (length (scored_sentences split_and_load astype self [b]))
         /\ calls_match self calls
              (enumerate (scored_sentences split_and_load astype self [b])
                         (sentence_no + 1)).
Proof.
  unfold scored_sentences. cbn [map concat]. rewrite app_nil_r.
  unfold score_one_batch.
  unfold mbind at 1. unfold M_bind. cbn [time_time].
  unfold mbind at 1. unfold M_bind. unfold lift at 1.
  destruct (score_batch split_and_load astype self b) as [scores | e].
  - cbn [scores_of].
    unfold mbind at 1. unfold M_bind. cbn [time_time clock_reads handled logged].
    unfold mbind at 1. unfold M_bind.
    set (rows := zip (source b) (zip (target b) scores)).
    set (bt := (clock (S (clock_reads w)) - clock (clock_reads w))%R).
    destruct (for_sentences_any bt rows sentence_no
                {| handled := handled w; logged := logged w;
                   clock_reads := S (S (clock_reads w)) |})
      as (calls & r & Hrun & Hpre & Hok).
    rewrite Hrun. destruct r as [n | e].
    + eexists calls, _, _. split; [reflexivity |]. split; [reflexivity |].
      split; [exact Hpre |].
      intros tt n' bno [= _ <- _]. now apply Hok.
    + eexists calls, _, _. split; [reflexivity |]. split; [reflexivity |].
      split; [exact Hpre |]. intros tt n' bno [=].
  - cbn [scores_of]. eexists [], _, _. split; [reflexivity |].
    cbn [handled]. split; [now rewrite app_nil_r |]. split.
    + exists []. split; [apply prefix_nil | constructor].
    + intros tt n bno [=].
Qed.

Lemma for_batches_any (stream : list Batch) :
  forall (start : Z) (total_time : R) (sentence_no batch_no : Z) (w : World),
  exists calls r w',
    for_ (enumerate stream start)
         (score_one_batch split_and_load astype self clock)
         (total_time, sentence_no, batch_no) w
    = (r, w')
    /\ handled w' = handled w ++ calls
    /\ calls_match_prefix self calls
         (enumerate (scored_sentences split_and_load astype self stream)
                    (sentence_no + 1)).
Proof.
  induction stream as [| b stream IH]; intros start tt n bno w.
  - eexists [], _, _. split; [reflexivity |]. split; [now rewrite app_nil_r |].
    exists []. split; [apply prefix_nil | constructor].
  - cbn [enumerate for_]. unfold mbind at 1. unfold M_bind.
    destruct (score_one_batch_any start b tt n bno w)
      as (calls1 & r1 & w1 & Hrun1 & Hw1 & Hpre1 & Hok1).
    rewrite Hrun1. rewrite (scored_sentences_cons split_and_load astype self b).
    rewrite enumerate_app.
    destruct r1 as [[[tt1 n1] bno1] | e].
    + destruct (Hok1 tt1 n1 bno1 eq_refl) as [Hn1 Hmatch1].
      destruct (IH (start + 1) tt1 n1 bno1 w1)
        as (calls2 & r2 & w2 & Hrun2 & Hw2 & first2 & Hfirst2 & Hmatch2).
      exists (calls1 ++ calls2), r2, w2.
      split; [exact Hrun2 |].
      split; [rewrite Hw2, Hw1; now rewrite app_assoc |].
      exists (enumerate (scored_sentences split_and_load astype self [b]) (n + 1)
              ++ first2).
      split.
      * apply prefix_app.
        replace (n + 1 + Z.of_nat (length (scored_sentences split_and_load
                                             astype self [b])))
          with (n1 + 1) by lia.
        exact Hfirst2.
      * now apply Forall2_app.
    + exists calls1, (Raise e), w1. split; [reflexivity |].
      split; [exact Hw1 |].
      destruct Hpre1 as (first1 & Hfirst1 & Hmatch1).
      exists first1. split; [now apply prefix_app_r | exact Hmatch1].
Qed.

(** The calls of the output handler in any run, finished or cut short. *)
Lemma handled_calls_any (stream : list Batch) :
  calls_match_prefix self
    (handled (score split_and_load astype self clock stream empty_world).2)
    (enumerate (scored_sentences split_and_load astype self stream) 1).
Proof.
  destruct (for_batches_any stream 1 0%R 0 0 empty_world)
    as (calls & r & w' & Hrun & Hw & Hpre).
  cbn [handled empty_world app] in Hw.
  unfold score. unfold mbind at 1. unfold M_bind. rewrite Hrun.
  destruct r as [[[tt n] bno] | e]; [| cbn [snd]; now rewrite Hw].
  assert (Hend : forall (m : M unit) (calls' : list _),
             (forall w, handled (m w).2 = handled w) ->
             handled w' = calls' -> handled (m w').2 = calls').
  { intros m calls' Hm <-. apply Hm. }
  apply (fun m Hm => eq_ind_r (fun l => calls_match_prefix self l _) Hpre
                       (Hend m calls Hm Hw)).
  intros w. destruct (negb (n =? 0)); [| reflexivity].
  unfold mbind, M_bind, lift, true_div.
  repeat (destruct (Req_dec_T _ _); [reflexivity |]). reflexivity.
Qed.

Lemma calls_match_prefix_lookup
    (calls : list (inference.TranslatorInput * inference.TranslatorOutput * R))
    (rows : list (list (list Z) * (list Z * xreal))) (start : Z) (k : nat)
    (call : inference.TranslatorInput * inference.TranslatorOutput * R) :
  calls_match_prefix self calls (enumerate rows start) ->
  calls !! k = Some call ->
  exists row batch_time,
    rows !! k = Some row
    /\ sentence_record self batch_time row (start + Z.of_nat k) = Ok call.
Proof.
  intros (first & Hfirst & Hcalls) Hk.
  destruct (Forall2_lookup_l _ _ _ _ _ Hcalls Hk) as ([n row] & Hrow & bt & Hrec).
  apply (prefix_lookup_Some _ _ _ _ Hrow) in Hfirst.
  rewrite lookup_enumerate in Hfirst.
  destruct (rows !! k) as [row' |] eqn:E; [| discriminate].
  cbn in Hfirst. injection Hfirst as <- <-.
  exists row', bt. split; [reflexivity | exact Hrec].
Qed.

End AnyRun.

Lemma zip_scores_sentences {A B C} (s : list A) (t : list B) (sc : list C) :
  length sc = length s -> length t = length s ->
  map (fun r : A * (B * C) => (r.1, r.2.1)) (zip s (zip t sc)) = zip s t.
Proof.
  revert t sc. induction s as [| x s IH]; intros [| y t] [| z sc] H1 H2;
    cbn in *; try discriminate; try reflexivity.
  f_equal. apply IH; lia.
Qed.

Section ScoreClaims.

Context {Ctx : Type}.
Variable split_and_load : Ctx -> Batch -> list Batch.
Variable astype : string -> NDArray -> NDArray.
Variable self : Scorer Ctx.
Variable clock : nat -> R.

Lemma scored_sentences_sentences (stream : list Batch) :
  Forall (scorable split_and_load astype self) stream ->
  map (fun r => (r.1, r.2.1))
      (scored_sentences split_and_load astype self stream)
  = sentences stream.
Proof.
  unfold scored_sentences, sentences.
  induction 1 as [| b stream Hb _ IH]; [reflexivity |].
  cbn [map concat]. rewrite map_app, IH. f_equal.
  destruct Hb as ((scores & Hscores & Hlen) & Htgt & _).
  rewrite Hscores. cbn [scores_of]. now apply zip_scores_sentences.
Qed.

Lemma calls_match_lookup
    (calls : list (inference.TranslatorInput * inference.TranslatorOutput * R))
    (rows : list (list (list Z) * (list Z * xreal))) (start : Z) (k : nat)
    (call : inference.TranslatorInput * inference.TranslatorOutput * R) :
  calls_match self calls (enumerate rows start) ->
  calls !! k = Some call ->
  exists row batch_time,
    rows !! k = Some row
    /\ sentence_record self batch_time row (start + Z.of_nat k) = Ok call.
Proof.
  intros Hcalls Hk.
  destruct (Forall2_lookup_l _ _ _ _ _ Hcalls Hk) as ([n row] & Hrow & bt & Hrec).
  rewrite lookup_enumerate in Hrow.
  destruct (rows !! k) as [row' |] eqn:E; [| discriminate].
  cbn in Hrow. injection Hrow as <- <-.
  exists row', bt. split; [reflexivity | exact Hrec].
Qed.

(** The calls of the output handler in a run over a stream that can be
    scored and rendered. *)
Lemma handled_calls (stream : list Batch) :
  Forall (scorable split_and_load astype self) stream ->
  calls_match self
    (handled (score split_and_load astype self clock stream empty_world).2)
    (enumerate (scored_sentences split_and_load astype self stream) 1).
Proof.
  intros Hstream.
  destruct (score_run split_and_load astype self clock stream Hstream)
    as (calls & Hcalls & Hrun).
  rewrite Hrun.
  destruct (_ =? 0); [exact Hcalls |].
  destruct (Req_dec_T _ _); exact Hcalls.
Qed.

Lemma length_handled (stream : list Batch) :
  Forall (scorable split_and_load astype self) stream ->
  length (handled (score split_and_load astype self clock stream empty_world).2)
  = length (sentences stream).
Proof.
  intros Hstream. pose proof (handled_calls stream Hstream) as Hcalls.
  apply Forall2_length in Hcalls. rewrite Hcalls, length_enumerate.
  rewrite <- (scored_sentences_sentences stream Hstream).
  now rewrite length_map.
Qed.

End ScoreClaims.

(** C8: for every finite stream of batches that can be scored and rendered,
    [Scorer.score] hands the output handler exactly one record for each
    sentence, in the order of arrival (batch after batch, row after row),
    and the k-th record, counted from one across the whole stream, carries
    the sentence id k and the rendering of the k-th sentence. *)
Theorem one_record_per_sentence_in_arrival_order {Ctx : Type}
    (split_and_load : Ctx -> Batch -> list Batch)
    (astype : string -> NDArray -> NDArray) (self : Scorer Ctx)
    (clock : nat -> R) (stream : list Batch) :
  Forall (scorable split_and_load astype self) stream ->
  let calls :=
    handled (score split_and_load astype self clock stream empty_world).2 in
  length calls = length (sentences stream)
  /\ forall k i o t,
       calls !! k = Some (i, o, t) ->
       inference.input_sentence_id i = Z.of_nat k + 1
       /\ inference.sentence_id o = Z.of_nat k + 1
       /\ exists src tgt,
            sentences stream !! k = Some (src, tgt)
            /\ (exists ids,
                   column0 src = Ok ids
                   /\ ids2tokens ids (source_vocab_inv self) (exclude_list self)
                      = Ok (inference.input_tokens i))
            /\ (exists toks,
                   ids2tokens tgt (target_vocab_inv self) (exclude_list self)
                   = Ok toks
                   /\ inference.translation o
                      = String.concat C.TOKEN_SEPARATOR toks).
Proof.
  intros Hstream calls. split.
  - now apply length_handled.
  - intros k i o t Hk.
    pose proof (handled_calls split_and_load astype self clock stream Hstream)
      as Hcalls.
    destruct (calls_match_lookup self _ _ _ _ _ Hcalls Hk)
      as ([src [tgt sc]] & bt & Hrow & Hrec).
    apply sentence_record_inv in Hrec.
    destruct Hrec as (Hi & Ho & _ & Hsrc & Htgt & _).
    split; [lia |]. split; [lia |].
    exists src, tgt. split; [| split; assumption].
    rewrite <- (scored_sentences_sentences split_and_load astype self stream
                  Hstream).
    rewrite list_lookup_fmap, Hrow. reflexivity.
Qed.

(** C3, as the code has it: in every run of [Scorer.score], finished or cut
    short, every record handed to the output handler is the record of a
    sentence of the stream, and it carries negative infinity when the first
    source id or the first target id of the sentence is PAD, and the score
    computed by [score_batch], unchanged, otherwise.  Hence a record carries
    negative infinity exactly when the pair is degenerate or the computed
    score is itself negative infinity. *)
Theorem degenerate_pairs_score_negative_infinity {Ctx : Type}
    (split_and_load : Ctx -> Batch -> list Batch)
    (astype : string -> NDArray -> NDArray) (self : Scorer Ctx)
    (clock : nat -> R) (stream : list Batch) :
  let calls :=
    handled (score split_and_load astype self clock stream empty_world).2 in
  forall k i o t,
    calls !! k = Some (i, o, t) ->
    exists src tgt computed,
      scored_sentences split_and_load astype self stream !! k
      = Some (src, (tgt, computed))
      /\ (degenerate src tgt -> inference.score o = NInf)
      /\ (~ degenerate src tgt -> inference.score o = computed)
      /\ (inference.score o = NInf <-> degenerate src tgt \/ computed = NInf).
Proof.
  intros calls k i o t Hk.
  pose proof (handled_calls_any split_and_load astype self clock stream)
    as Hcalls.
  destruct (calls_match_prefix_lookup self _ _ _ _ _ Hcalls Hk)
    as ([src [tgt sc]] & bt & Hrow & Hrec).
  apply sentence_record_inv in Hrec.
  destruct Hrec as (_ & _ & _ & _ & _ & _ & _ & Hdeg & Hnot).
  exists src, tgt, sc. split; [exact Hrow |].
  split; [exact Hdeg |]. split; [exact Hnot |].
  assert (Hdec : degenerate src tgt \/ ~ degenerate src tgt).
  { unfold degenerate.
    destruct (decide (first_source_id src = Some C.PAD_ID)); [tauto |].
    destruct (decide (first_target_id tgt = Some C.PAD_ID)); tauto. }
  split.
  - intros Ho. destruct Hdec as [Hd | Hd]; [now left |].
    right. now rewrite <- (Hnot Hd).
  - intros [Hd | Hc]; [now apply Hdeg |].
    destruct Hdec as [Hd | Hd]; [now apply Hdeg |].
    now rewrite (Hnot Hd).
Qed.

Section FirstFactor.

Context {Ctx : Type}.
Variable self : Scorer Ctx.

Lemma sentence_record_input (batch_time : R)
    (row : list (list Z) * (list Z * xreal)) (sentence_no : Z)
    (call : inference.TranslatorInput * inference.TranslatorOutput * R) :
  sentence_record self batch_time row sentence_no = Ok call ->
  render_input self sentence_no row.1 = Ok call.1.1.
Proof.
  destruct row as [src [tgt sc]]. unfold sentence_record, render_input.
  cbn [fst]. unfold mbind, result_bind.
  destruct (column0 src) as [ids | e]; [| discriminate].
  destruct (ids2tokens ids _ _) as [stoks | e]; [| discriminate].
  destruct (ids2tokens tgt _ _) as [ttoks | e]; [| discriminate].
  destruct (item0 src) as [src0 | e]; [| discriminate].
  destruct (item0 src0) as [src00 | e]; [| discriminate].
  destruct (src00 =? C.PAD_ID); [now intros [= <-] |].
  destruct (item0 tgt) as [tgt0 | e]; [| discriminate].
  destruct (tgt0 =? C.PAD_ID); now intros [= <-].
Qed.

Lemma inputs_of_calls
    (calls : list (inference.TranslatorInput * inference.TranslatorOutput * R))
    (numbered : list (Z * (list (list Z) * (list Z * xreal)))) :
  calls_match self calls numbered ->
  map (fun c => Ok c.1.1) calls
  = map (fun s => render_input self s.1 s.2.1) numbered.
Proof.
  induction 1 as [| call s calls numbered [bt Hrec] _ IH]; [reflexivity |].
  cbn [map]. rewrite IH. f_equal. symmetry.
  now apply (sentence_record_input bt).
Qed.

Lemma render_input_column0 (src src' : list (list Z)) (n : Z) :
  column0 src = column0 src' ->
  render_input self n src = render_input self n src'.
Proof. intros H. unfold render_input. now rewrite H. Qed.

Lemma render_inputs_column0
    (rows rows' : list (list (list Z) * (list Z * xreal))) (start : Z) :
  map column0 (map fst rows) = map column0 (map fst rows') ->
  map (fun s => render_input self s.1 s.2.1) (enumerate rows start)
  = map (fun s => render_input self s.1 s.2.1) (enumerate rows' start).
Proof.
  revert rows' start.
  induction rows as [| r rows IH]; intros [| r' rows'] start H; cbn in H;
    try discriminate; [reflexivity |].
  injection H as Hcol Hrest. cbn [enumerate map fst snd]. f_equal.
  - now apply render_input_column0.
  - now apply IH.
Qed.

Lemma map_Ok_inj {A B} (f : A -> B) (l k : list A) :
  map (fun a => Ok (f a)) l = map (fun a => Ok (f a)) k -> map f l = map f k.
Proof.
  revert k. induction l as [| a l IH]; intros [| b k] H; cbn in H;
    try discriminate; [reflexivity |].
  injection H as Ha Hrest. cbn. f_equal; [exact Ha | now apply IH].
Qed.

End FirstFactor.

Lemma zip_fst {A B} (s : list A) (t : list B) :
  length t = length s -> map fst (zip s t) = s.
Proof.
  revert t. induction s as [| x s IH]; intros [| y t] H; cbn in *;
    try discriminate; [reflexivity |].
  f_equal. apply IH. lia.
Qed.

Lemma sentences_sources (stream : list Batch) :
  Forall (fun b => length (target b) = length (source b)) stream ->
  map fst (sentences stream) = concat (map source stream).
Proof.
  unfold sentences. induction 1 as [| b stream Hb _ IH]; [reflexivity |].
  cbn [map concat]. rewrite map_app, IH. f_equal. now apply zip_fst.
Qed.

Lemma scored_sources {Ctx : Type}
    (split_and_load : Ctx -> Batch -> list Batch)
    (astype : string -> NDArray -> NDArray) (self : Scorer Ctx)
    (stream : list Batch) :
  Forall (scorable split_and_load astype self) stream ->
  map fst (scored_sentences split_and_load astype self stream)
  = concat (map source stream).
Proof.
  intros Hstream.
  rewrite <- sentences_sources.
  - rewrite <- (scored_sentences_sentences split_and_load astype self stream
                  Hstream).
    rewrite map_map. reflexivity.
  - eapply Forall_impl; [exact Hstream |].
    intros b (_ & Htgt & _). exact Htgt.
Qed.

(** What [source[:, 0]] gives is the first factor of the source. *)
Lemma column0_first_factor (src : list (list Z)) (ids : list Z) :
  column0 src = Ok ids -> first_factor src ids.
Proof.
  unfold column0, first_factor. revert ids.
  induction src as [| position src IH]; intros ids H.
  - injection H as <-. constructor.
  - cbn [mapM] in H. destruct position as [| x others]; [discriminate H |].
    cbn in H.
    destruct (mapM _ src) as [rest | e] eqn:E; [| discriminate H].
    injection H as <-. constructor; [reflexivity | now apply IH].
Qed.

Lemma same_first_factor_column0 (src src' : list (list Z)) :
  same_first_factor src src' -> column0 src = column0 src'.
Proof.
  unfold column0. induction 1 as [| p p' src src' Hp _ IH]; [reflexivity |].
  cbn [mapM]. rewrite IH.
  destruct p as [| x ?], p' as [| x' ?]; try discriminate Hp; [reflexivity |].
  injection Hp as ->. reflexivity.
Qed.

Lemma same_first_factors_column0 (srcs srcs' : list (list (list Z))) :
  Forall2 same_first_factor srcs srcs' -> map column0 srcs = map column0 srcs'.
Proof.
  induction 1 as [| src src' srcs srcs' H _ IH]; [reflexivity |].
  cbn [map]. now rewrite (same_first_factor_column0 _ _ H), IH.
Qed.

(** C10: in every run of [Scorer.score] the source tokens of every record
    are the rendering of the ids that the sentence's source has at factor 0,
    position by position, and the check for a degenerate pair looks at
    factor 0 of the first source position only; so two streams that can be
    scored and rendered and whose sources agree on factor 0 at every
    position give rise to the same input records, whatever their other
    factors hold. *)
Theorem source_is_rendered_from_first_factor {Ctx : Type}
    (split_and_load : Ctx -> Batch -> list Batch)
    (astype : string -> NDArray -> NDArray) (self : Scorer Ctx)
    (clock : nat -> R) (stream : list Batch) :
  let calls :=
    handled (score split_and_load astype self clock stream empty_world).2 in
  (forall k i o t,
      calls !! k = Some (i, o, t) ->
      exists src tgt computed,
        scored_sentences split_and_load astype self stream !! k
        = Some (src, (tgt, computed))
        /\ (exists ids,
               first_factor src ids
               /\ ids2tokens ids (source_vocab_inv self) (exclude_list self)
                  = Ok (inference.input_tokens i))
        /\ (first_source_id src = Some C.PAD_ID -> inference.score o = NInf)
        /\ (first_source_id src <> Some C.PAD_ID ->
            first_target_id tgt <> Some C.PAD_ID ->
            inference.score o = computed))
  /\ forall stream',
       Forall (scorable split_and_load astype self) stream ->
       Forall (scorable split_and_load astype self) stream' ->
       Forall2 same_first_factor (concat (map source stream))
               (concat (map source stream')) ->
       map (fun c => c.1.1) calls
       = map (fun c => c.1.1)
             (handled (score split_and_load astype self clock stream'
                             empty_world).2).
Proof.
  intros calls. split.
  - intros k i o t Hk.
    pose proof (handled_calls_any split_and_load astype self clock stream)
      as Hcalls.
    destruct (calls_match_prefix_lookup self _ _ _ _ _ Hcalls Hk)
      as ([src [tgt sc]] & bt & Hrow & Hrec).
    apply sentence_record_inv in Hrec.
    destruct Hrec as (_ & _ & _ & (ids & Hcol & Hids) & _ & _ & _ & Hdeg & Hnot).
    exists src, tgt, sc. split; [exact Hrow |]. split.
    { exists ids. split; [now apply column0_first_factor | exact Hids]. }
    split.
    + intros H. apply Hdeg. now left.
    + intros Hs Ht. apply Hnot. intros [H | H]; contradiction.
  - intros stream' Hstream Hstream' Hcol.
    pose proof (handled_calls split_and_load astype self clock stream Hstream)
      as Hcalls.
    pose proof (handled_calls split_and_load astype self clock stream' Hstream')
      as Hcalls'.
    apply (map_Ok_inj (fun c : inference.TranslatorInput
                               * inference.TranslatorOutput * R => c.1.1)).
    cbv beta. subst calls. rewrite (inputs_of_calls self _ _ Hcalls).
    rewrite (inputs_of_calls self _ _ Hcalls').
    apply render_inputs_column0.
    rewrite !scored_sources by assumption.
    now apply same_first_factors_column0.
Qed.

(** C5, as the code has it: after a stream that can be scored and rendered,
    if no sentence was processed, the run ends normally with the one log
    line "Processed 0 lines.", whatever the clock and the number of
    batches; if N > 0 sentences were processed in B batches and the time T
    added up is not zero, it ends normally with the one log line
    "Processed N lines in C batches. Total time: T, sec/sent: X, sent/sec: Y"
    where C = ceil(N / B), X = T / N and Y = N / T. *)
Theorem summary_line {Ctx : Type}
    (split_and_load : Ctx -> Batch -> list Batch)
    (astype : string -> NDArray -> NDArray) (self : Scorer Ctx)
    (clock : nat -> R) (stream : list Batch) :
  Forall (scorable split_and_load astype self) stream ->
  let run := score split_and_load astype self clock stream empty_world in
  let N := Z.of_nat (length (sentences stream)) in
  let B := Z.of_nat (length stream) in
  let T := elapsed clock 0 0 (length stream) in
  (N = 0 ->
   run.1 = Ok tt
   /\ map getMessage (logged run.2) = [Some [Text "Processed 0 lines."]])
  /\ (N <> 0 -> T <> 0%R ->
      run.1 = Ok tt
      /\ map getMessage (logged run.2)
         = [Some (code_summary N (math_ceil (IZR N / IZR B)) T
                               (T / IZR N) (IZR N / T))]).
Proof.
  intros Hstream run N B T.
  destruct (score_run split_and_load astype self clock stream Hstream)
    as (calls & _ & Hrun).
  assert (HN : Z.of_nat (length (scored_sentences split_and_load astype self
                                                  stream)) = N).
  { subst N. rewrite <- (scored_sentences_sentences split_and_load astype self
                           stream Hstream).
    now rewrite length_map. }
  rewrite HN in Hrun. fold B T in Hrun. subst run. rewrite Hrun. split.
  - intros H0. rewrite H0. cbn. split; reflexivity.
  - intros HN0 HT. rewrite (proj2 (Z.eqb_neq N 0) HN0).
    destruct (Req_dec_T T 0) as [? | _]; [contradiction |].
    cbn [fst snd logged map]. rewrite getMessage_summary. split; reflexivity.
Qed.

(** ** [BatchScorer]: the constant length ratio *)

(** With a constant length ratio the brevity penalty sees the predicted
    ratio plus the constant. *)
Lemma constant_length_ratio_is_added (self : BatchScorer) (lp : xreal -> xreal)
    (bp : xreal -> xreal -> xreal) (c : xreal)
    (lg : list (list xreal)) (lb : list Z) (ratio sl tl : xreal) :
  constant_length_ratio self = Some c ->
  score_row self lp bp (lg, (lb, (ratio, (sl, tl))))
  = score_row {| score_type := score_type self;
                 softmax_temperature := softmax_temperature self;
                 length_penalty := length_penalty self;
                 brevity_penalty := brevity_penalty self;
                 constant_length_ratio := None |}
              lp bp (lg, (lb, (xadd ratio c, (sl, tl)))).
Proof.
  intros Hc. unfold score_row. rewrite Hc. cbn [constant_length_ratio
    score_type softmax_temperature].
  replace (xmul c (Fin 1)) with c; [reflexivity |].
  destruct c; cbn; try rewrite Rsign_pos by lra; try reflexivity.
  f_equal. lra.
Qed.


Ltac positive :=
  repeat apply Rdiv_lt_0_compat; pose proof (exp_pos 0); lra.

Lemma uniform_gold_log_probability (label : Z) :
  0 <= label < 6 ->
  gold_log_probability None [Fin 0; Fin 0; Fin 0; Fin 0; Fin 0; Fin 0] label
  = Fin (ln (exp 0 / (exp 0 + (exp 0 + (exp 0 + (exp 0 + (exp 0 + (exp 0 + 0)))))))).
Proof.
  intros Hlabel. unfold gold_log_probability, scaled_logits, F.softmax1.
  cbn [map xexp F.sum1 foldr xadd].
  assert (Hdiv : xdiv (Fin (exp 0))
                   (Fin (exp 0 + (exp 0 + (exp 0 + (exp 0 + (exp 0 + (exp 0 + 0)))))))
                 = Fin (exp 0 / (exp 0 + (exp 0 + (exp 0 + (exp 0 + (exp 0
                                                      + (exp 0 + 0)))))))).
  { cbn [xdiv]. now rewrite Rsign_pos by positive. }
  rewrite Hdiv.
  assert (Hpick : forall x, F.pick1 [x; x; x; x; x; x] label = x).
  { intros x. unfold F.pick1. cbn [length].
    assert (H : label = 0 \/ label = 1 \/ label = 2 \/ label = 3 \/ label = 4
                \/ label = 5) by lia.
    destruct H as [-> | [-> | [-> | [-> | [-> | ->]]]]]; reflexivity. }
  rewrite Hpick. cbn [xlog]. now rewrite Rsign_pos by positive.
Qed.

Lemma scale_row (temperature : option xreal) (lg : list (list xreal)) :
  match temperature with
  | Some t => map (map (fun a => xdiv a t)) lg
  | None => lg
  end = map (scaled_logits temperature) lg.
Proof.
  destruct temperature; cbn; [reflexivity |]. now rewrite map_id.
Qed.

(** The log-probability score of a row. *)
Lemma score_row_logprob (self : BatchScorer) (lp : xreal -> xreal)
    (bp : xreal -> xreal -> xreal)
    (lg : list (list xreal)) (lb : list Z) (ratio sl tl : xreal) :
  score_type self = C.SCORING_TYPE_LOGPROB ->
  score_row self lp bp (lg, (lb, (ratio, (sl, tl))))
  = xsub (xdiv (sum_over_non_pad (softmax_temperature self) lg lb)
               (lp (xsub tl (Fin 1))))
         (bp (xsub tl (Fin 1))
             (xmul match constant_length_ratio self with
                   | Some c => xadd ratio (xmul c (Fin 1))
                   | None => ratio
                   end sl)).
Proof.
  intros Htype. unfold score_row. rewrite Htype.
  change (String.eqb C.SCORING_TYPE_LOGPROB C.SCORING_TYPE_NEGLOGPROB)
    with false. cbv iota.
  now rewrite scale_row, masked_row_sum.
Qed.

Lemma uniform_sentence_sum :
  sum_over_non_pad None
    [[Fin 0; Fin 0; Fin 0; Fin 0; Fin 0; Fin 0];
     [Fin 0; Fin 0; Fin 0; Fin 0; Fin 0; Fin 0];
     [Fin 0; Fin 0; Fin 0; Fin 0; Fin 0; Fin 0]] [4; 3; 0]
  = Fin (ln (exp 0 / (exp 0 + (exp 0 + (exp 0 + (exp 0 + (exp 0 + (exp 0 + 0)))))))
         + (ln (exp 0 / (exp 0 + (exp 0 + (exp 0 + (exp 0 + (exp 0
                                                   + (exp 0 + 0)))))))
            + 0)).
Proof.
  unfold sum_over_non_pad. cbn [zip zip_with]. rewrite !filter_cons.
  cbn [fst snd]. unfold C.PAD_ID.
  rewrite !decide_True by lia. rewrite decide_False by lia.
  rewrite filter_nil. cbn [map fst snd].
  rewrite !uniform_gold_log_probability by lia. reflexivity.
Qed.

(** C1: with a constant length ratio configured, two runs that differ only
    in the predicted length ratio give different scores: the constant is
    added to the predicted ratio and does not replace it. *)
Theorem constant_length_ratio_does_not_override :
  hybrid_forward Examples.constant_ratio_scorer Examples.sentence_logits
                 Examples.sentence_labels [Fin 0] [Fin 2] [Fin 3]
  <> hybrid_forward Examples.constant_ratio_scorer Examples.sentence_logits
                    Examples.sentence_labels [Fin 1] [Fin 2] [Fin 3].
Proof.
  rewrite !(hybrid_forward_rows Examples.constant_ratio_scorer
              (fun _ => Fin 1) Examples.log_brevity_penalty1)
    by (intros; reflexivity).
  unfold Examples.sentence_logits, Examples.sentence_labels.
  cbn [zip zip_with map].
  rewrite !score_row_logprob by reflexivity.
  cbn [Examples.constant_ratio_scorer softmax_temperature
       constant_length_ratio].
  rewrite uniform_sentence_sum. set (g := (ln _ + _)%R).
  unfold Examples.log_brevity_penalty1.
  cbn [xmul xadd xsub xopp xdiv].
  rewrite !Rsign_pos by lra. cbn [Examples.xmin xmul xadd xopp].
  intros [= H]. revert H.
  replace ((0 + 1 * 1) * 2 / (3 + - (1)))%R with 1%R by field.
  replace ((1 + 1 * 1) * 2 / (3 + - (1)))%R with 2%R by field.
  unfold Rmin.
  repeat match goal with
         | |- context [Rle_dec ?a ?b] => destruct (Rle_dec a b)
         end; lra.
Qed.

(** ** [BatchScorer.__init__] *)

(** C6, as the code has it: the construction of a [BatchScorer] never fails
    and checks nothing; whatever the score type and the temperature, the
    scorer holds them as they were given, and a score type other than
    negative-log-probability is scored as log-probability. *)
Theorem construction_accepts_every_configuration
    (lp : list xreal -> list xreal) (bp : list xreal -> list xreal -> list xreal)
    (ty : string) (temperature constant : option xreal) :
  (exists self,
      BatchScorer_init lp bp ty temperature constant = Ok self
      /\ score_type self = ty
      /\ softmax_temperature self = temperature
      /\ constant_length_ratio self = constant)
  /\ (ty <> C.SCORING_TYPE_NEGLOGPROB ->
      forall logits labels length_ratio source_length target_length,
        hybrid_forward {| score_type := ty; softmax_temperature := temperature;
                          length_penalty := lp; brevity_penalty := bp;
                          constant_length_ratio := constant |}
                       logits labels length_ratio source_length target_length
        = hybrid_forward {| score_type := C.SCORING_TYPE_LOGPROB;
                            softmax_temperature := temperature;
                            length_penalty := lp; brevity_penalty := bp;
                            constant_length_ratio := constant |}
                         logits labels length_ratio source_length target_length).
Proof.
  split.
  - eexists. split; [reflexivity |]. repeat split.
  - intros Hty logits labels length_ratio source_length target_length.
    unfold hybrid_forward. cbn [score_type].
    rewrite (proj2 (String.eqb_neq _ _) Hty). reflexivity.
Qed.

(** C6 fails as stated: a score type that is neither of the two and a
    temperature of minus one are accepted at construction. *)
Lemma invalid_configuration_is_accepted :
  ~ valid_score_type "bleu"
  /\ ~ positive_temperature (Fin (-1))
  /\ exists self,
       BatchScorer_init Examples.neutral_length_penalty
                        Examples.neutral_brevity_penalty
                        "bleu" (Some (Fin (-1))) None
       = Ok self.
Proof.
  split; [| split].
  - intros [H | H]; discriminate H.
  - cbn. lra.
  - eexists. reflexivity.
Qed.

(** ** [math.ceil] of a quotient of integers *)

Lemma math_ceil_spec (x : R) (z : Z) :
  (IZR z - 1 < x)%R -> (x <= IZR z)%R -> math_ceil x = z.
Proof.
  intros Hlo Hhi. unfold math_ceil.
  assert (H : 1 - z = up (- x)).
  { apply tech_up; rewrite minus_IZR; lra. }
  lia.
Qed.

Lemma math_ceil_quotient (n b : Z) :
  0 < b -> math_ceil (IZR n / IZR b) = (n + b - 1) / b.
Proof.
  intros Hb.
  assert (HbR : (0 < IZR b)%R) by now apply IZR_lt.
  pose proof (Z.div_mod (n + b - 1) b ltac:(lia)) as Hdiv.
  pose proof (Z.mod_pos_bound (n + b - 1) b Hb) as Hmod.
  set (q := (n + b - 1) / b) in *.
  apply math_ceil_spec.
  - apply Rmult_lt_reg_r with (r := IZR b); [exact HbR |].
    unfold Rdiv. rewrite Rmult_assoc, Rinv_l by lra. rewrite Rmult_1_r.
    rewrite <- minus_IZR, <- mult_IZR. apply IZR_lt. nia.
  - apply Rmult_le_reg_r with (r := IZR b); [exact HbR |].
    unfold Rdiv. rewrite Rmult_assoc, Rinv_l by lra. rewrite Rmult_1_r.
    rewrite <- mult_IZR. apply IZR_le. nia.
Qed.

(** ** The examples can be scored and rendered *)

Lemma score_batch_length {Ctx : Type}
    (split_and_load : Ctx -> Batch -> list Batch)
    (astype : string -> NDArray -> NDArray) (self : Scorer Ctx)
    (row_logits : Row -> list (list xreal)) (row_ratio : option (Row -> xreal))
    (lp : xreal -> xreal) (bp : xreal -> xreal -> xreal) (b : Batch) :
  dtype (model self) <> C.DTYPE_FP16 ->
  row_wise (model self) row_logits row_ratio ->
  (forall v, length_penalty (batch_scorer self) v = map lp v) ->
  (forall h r, brevity_penalty (batch_scorer self) h r = zip_with bp h r) ->
  split_and_load (context self) b <> [] ->
  Forall aligned (split_and_load (context self) b) ->
  batch_concat (split_and_load (context self) b) = b ->
  exists scores,
    score_batch split_and_load astype self b = Ok scores
    /\ length scores = length (source b).
Proof.
  intros Hdtype Hmodel Hlp Hbp Hne Hal Hcover.
  eexists. split.
  - now apply (score_batch_rows split_and_load astype self row_logits
                 row_ratio lp bp).
  - rewrite Hcover, length_map. apply length_scored_rows.
    rewrite <- Hcover. now apply aligned_concat.
Qed.

Ltac solve_known :=
  first [ left; set_solver
        | right; eexists; vm_compute; reflexivity ].

Ltac solve_renderable :=
  split; [discriminate |];
  split; [repeat (constructor; [solve_known |]); constructor |];
  split; [discriminate |];
  repeat (constructor; [solve_known |]); constructor.

Ltac solve_aligned :=
  repeat (constructor; [repeat split |]); constructor.

Lemma row_model_scorable (logits : Row -> list (list xreal))
    (devices : list nat) (b : Batch) :
  Forall aligned (Examples.split_rows devices b) ->
  batch_concat (Examples.split_rows devices b) = b ->
  exists scores,
    score_batch Examples.split_rows Examples.same_values
                (Examples.scorer (Examples.row_model "float32" logits None)
                                 devices) b
    = Ok scores
    /\ length scores = length (source b).
Proof.
  intros Hal Hcover.
  apply (score_batch_length Examples.split_rows Examples.same_values _ logits
           None (fun _ => Fin 1) (fun _ _ => Fin 0)); try assumption.
  - discriminate.
  - intros s sl t tl. reflexivity.
  - intros v. reflexivity.
  - intros h r. reflexivity.
  - destruct devices; discriminate.
Qed.

Lemma stream_scorable :
  Forall (scorable Examples.split_rows Examples.same_values
                   Examples.uniform_scorer) Examples.stream.
Proof.
  apply List.Forall_cons; [| apply List.Forall_cons; [| apply List.Forall_nil]].
  - split; [| split].
    + apply row_model_scorable; [solve_aligned | reflexivity].
    + reflexivity.
    + repeat (constructor; [solve_renderable |]); constructor.
  - split; [| split].
    + apply row_model_scorable; [solve_aligned | reflexivity].
    + reflexivity.
    + repeat (constructor; [solve_renderable |]); constructor.
Qed.

Lemma other_factors_scorable :
  Forall (scorable Examples.split_rows Examples.same_values
                   Examples.uniform_scorer) Examples.other_factors.
Proof.
  apply List.Forall_cons; [| apply List.Forall_cons; [| apply List.Forall_nil]].
  - split; [| split].
    + apply row_model_scorable; [solve_aligned | reflexivity].
    + reflexivity.
    + repeat (constructor; [solve_renderable |]); constructor.
  - split; [| split].
    + apply row_model_scorable; [solve_aligned | reflexivity].
    + reflexivity.
    + repeat (constructor; [solve_renderable |]); constructor.
Qed.

Lemma padding_only_scorable :
  Forall (scorable Examples.split_rows Examples.same_values
                   Examples.padding_only_scorer) [Examples.one_sentence].
Proof.
  constructor; [| constructor]. split; [| split].
  - apply row_model_scorable; [solve_aligned | reflexivity].
  - reflexivity.
  - repeat (constructor; [solve_renderable |]); constructor.
Qed.

(** ** The theorems at the examples *)

Lemma neglogprob_is_negated_logprob_witness :
  constant_one Examples.neutral_length_penalty
  /\ constant_zero Examples.neutral_brevity_penalty
  /\ hybrid_forward (Examples.neutral_scorer C.SCORING_TYPE_NEGLOGPROB)
                    Examples.sentence_logits Examples.sentence_labels
                    [Fin 1] [Fin 2] [Fin 3]
     = map xopp
         (hybrid_forward (Examples.neutral_scorer C.SCORING_TYPE_LOGPROB)
                         Examples.sentence_logits Examples.sentence_labels
                         [Fin 1] [Fin 2] [Fin 3]).
Proof.
  assert (H1 : constant_one Examples.neutral_length_penalty)
    by (intros v; reflexivity).
  assert (H2 : constant_zero Examples.neutral_brevity_penalty)
    by (intros h r; reflexivity).
  split; [exact H1 |]. split; [exact H2 |].
  exact (neglogprob_is_negated_logprob
           Examples.neutral_length_penalty Examples.neutral_brevity_penalty
           None None Examples.sentence_logits Examples.sentence_labels
           [Fin 1] [Fin 2] [Fin 3] H1 H2).
Defined.

Lemma logprob_is_sum_over_non_pad_steps_witness :
  score_type (Examples.neutral_scorer C.SCORING_TYPE_LOGPROB)
  = C.SCORING_TYPE_LOGPROB
  /\ constant_one Examples.neutral_length_penalty
  /\ constant_zero Examples.neutral_brevity_penalty
  /\ length Examples.sentence_labels = length Examples.sentence_logits
  /\ hybrid_forward (Examples.neutral_scorer C.SCORING_TYPE_LOGPROB)
                    Examples.sentence_logits Examples.sentence_labels
                    [Fin 1] [Fin 2] [Fin 3]
     = zip_with (sum_over_non_pad None) Examples.sentence_logits
                Examples.sentence_labels.
Proof.
  assert (H1 : constant_one Examples.neutral_length_penalty)
    by (intros v; reflexivity).
  assert (H2 : constant_zero Examples.neutral_brevity_penalty)
    by (intros h r; reflexivity).
  split; [reflexivity |]. split; [exact H1 |]. split; [exact H2 |].
  split; [reflexivity |].
  exact (proj1 (logprob_is_sum_over_non_pad_steps
                  (Examples.neutral_scorer C.SCORING_TYPE_LOGPROB)
                  Examples.sentence_logits Examples.sentence_labels
                  [Fin 1] [Fin 2] [Fin 3]
                  eq_refl H1 H2 eq_refl eq_refl eq_refl eq_refl)).
Defined.

Lemma sharding_preserves_scores_witness :
  dtype (model Examples.sharded_scorer) <> C.DTYPE_FP16
  /\ row_wise (model Examples.sharded_scorer) Examples.uniform_logits None
  /\ entrywise1 (length_penalty (batch_scorer Examples.sharded_scorer))
  /\ entrywise2 (brevity_penalty (batch_scorer Examples.sharded_scorer))
  /\ Examples.split_rows (context Examples.sharded_scorer)
                         Examples.two_sentences <> []
  /\ Forall aligned (Examples.split_rows (context Examples.sharded_scorer)
                                         Examples.two_sentences)
  /\ batch_concat (Examples.split_rows (context Examples.sharded_scorer)
                                       Examples.two_sentences)
     = Examples.two_sentences
  /\ exists scores,
       score_batch Examples.split_rows Examples.same_values
                   Examples.sharded_scorer Examples.two_sentences = Ok scores
       /\ length scores = 2%nat
       /\ score_batch single_shard Examples.same_values
                      Examples.sharded_scorer Examples.two_sentences
          = Ok scores.
Proof.
  assert (H1 : dtype (model Examples.sharded_scorer) <> C.DTYPE_FP16)
    by discriminate.
  assert (H2 : Forall aligned
                 (Examples.split_rows (context Examples.sharded_scorer)
                                      Examples.two_sentences))
    by solve_aligned.
  assert (H3 : entrywise1 (length_penalty
                             (batch_scorer Examples.sharded_scorer)))
    by (exists (fun _ => Fin 1); intros v; reflexivity).
  assert (H4 : entrywise2 (brevity_penalty
                             (batch_scorer Examples.sharded_scorer)))
    by (exists (fun _ _ => Fin 0); intros h r; reflexivity).
  split; [exact H1 |]. split; [intros s sl t tl; reflexivity |].
  split; [exact H3 |]. split; [exact H4 |]. split; [discriminate |].
  split; [exact H2 |]. split; [reflexivity |].
  destruct (sharding_preserves_scores
              Examples.split_rows Examples.same_values Examples.sharded_scorer
              Examples.uniform_logits None Examples.two_sentences
              H1 (fun s sl t tl => eq_refl) H3 H4
              ltac:(discriminate) H2 eq_refl)
    as (scores & Hsplit & Hlen & _ & Hsingle).
  exists scores. split; [exact Hsplit |]. split; [exact Hlen | exact Hsingle].
Defined.

Lemma reduced_precision_model_gets_no_inputs_witness :
  dtype (model Examples.reduced_precision_scorer) = C.DTYPE_FP16
  /\ Examples.split_rows (context Examples.reduced_precision_scorer)
                         Examples.two_sentences <> []
  /\ score_batch Examples.split_rows Examples.same_values
                 Examples.reduced_precision_scorer Examples.two_sentences
     = Raise TypeError.
Proof.
  split; [reflexivity |]. split; [discriminate |].
  exact (reduced_precision_model_gets_no_inputs
           Examples.split_rows Examples.same_values
           Examples.reduced_precision_scorer Examples.two_sentences
           eq_refl ltac:(discriminate)).
Defined.

Lemma one_record_per_sentence_in_arrival_order_witness :
  Forall (scorable Examples.split_rows Examples.same_values
                   Examples.uniform_scorer) Examples.stream
  /\ length (handled (score Examples.split_rows Examples.same_values
                            Examples.uniform_scorer Examples.ticking
                            Examples.stream empty_world).2)
     = 3%nat.
Proof.
  split; [exact stream_scorable |].
  exact (proj1 (one_record_per_sentence_in_arrival_order
                  Examples.split_rows Examples.same_values
                  Examples.uniform_scorer Examples.ticking Examples.stream
                  stream_scorable)).
Defined.

Lemma degenerate_pairs_score_negative_infinity_witness :
  exists i o t src tgt computed,
    handled (score Examples.split_rows Examples.same_values
                   Examples.uniform_scorer Examples.ticking
                   Examples.stream empty_world).2 !! 1%nat
    = Some (i, o, t)
    /\ scored_sentences Examples.split_rows Examples.same_values
                        Examples.uniform_scorer Examples.stream !! 1%nat
       = Some (src, (tgt, computed))
    /\ (degenerate src tgt -> inference.score o = NInf)
    /\ (~ degenerate src tgt -> inference.score o = computed).
Proof.
  pose proof (length_handled Examples.split_rows Examples.same_values
                Examples.uniform_scorer Examples.ticking Examples.stream
                stream_scorable) as Hlen.
  destruct (handled (score Examples.split_rows Examples.same_values
                           Examples.uniform_scorer Examples.ticking
                           Examples.stream empty_world).2)
    as [| c0 [| [[i o] t] rest]] eqn:E; try discriminate Hlen.
  destruct (degenerate_pairs_score_negative_infinity
              Examples.split_rows Examples.same_values Examples.uniform_scorer
              Examples.ticking Examples.stream 1%nat i o t
              ltac:(rewrite E; reflexivity))
    as (src & tgt & computed & Hrow & Hdeg & Hnot & _).
  exists i, o, t, src, tgt, computed.
  split; [reflexivity |]. split; [exact Hrow |]. split; [exact Hdeg | exact Hnot].
Defined.

Lemma source_is_rendered_from_first_factor_witness :
  Forall (scorable Examples.split_rows Examples.same_values
                   Examples.uniform_scorer) Examples.stream
  /\ Forall (scorable Examples.split_rows Examples.same_values
                      Examples.uniform_scorer) Examples.other_factors
  /\ Forall2 same_first_factor (concat (map source Examples.stream))
             (concat (map source Examples.other_factors))
  /\ map (fun c => c.1.1)
         (handled (score Examples.split_rows Examples.same_values
                         Examples.uniform_scorer Examples.ticking
                         Examples.stream empty_world).2)
     = map (fun c => c.1.1)
           (handled (score Examples.split_rows Examples.same_values
                           Examples.uniform_scorer Examples.ticking
                           Examples.other_factors empty_world).2).
Proof.
  assert (Hsame : Forall2 same_first_factor
                          (concat (map source Examples.stream))
                          (concat (map source Examples.other_factors))).
  { repeat (constructor; [repeat (constructor; [reflexivity |]); constructor |]).
    constructor. }
  split; [exact stream_scorable |]. split; [exact other_factors_scorable |].
  split; [exact Hsame |].
  exact (proj2 (source_is_rendered_from_first_factor
                  Examples.split_rows Examples.same_values
                  Examples.uniform_scorer Examples.ticking Examples.stream)
               Examples.other_factors stream_scorable other_factors_scorable
               Hsame).
Defined.

Lemma summary_line_witness :
  Forall (scorable Examples.split_rows Examples.same_values
                   Examples.uniform_scorer) Examples.stream
  /\ Z.of_nat (length (sentences Examples.stream)) <> 0
  /\ elapsed Examples.ticking 0 0 2 <> 0%R
  /\ map getMessage
         (logged (score Examples.split_rows Examples.same_values
                        Examples.uniform_scorer Examples.ticking
                        Examples.stream empty_world).2)
     = [Some (code_summary 3 (math_ceil (IZR 3 / IZR 2))
                           (elapsed Examples.ticking 0 0 2)
                           (elapsed Examples.ticking 0 0 2 / IZR 3)
                           (IZR 3 / elapsed Examples.ticking 0 0 2))].
Proof.
  assert (HN : Z.of_nat (length (sentences Examples.stream)) <> 0)
    by discriminate.
  assert (HT : elapsed Examples.ticking 0 0 2 <> 0%R).
  { cbn [elapsed]. unfold Examples.ticking. cbn [INR]. lra. }
  split; [exact stream_scorable |]. split; [exact HN |]. split; [exact HT |].
  exact (proj2 (proj2 (summary_line
                         Examples.split_rows Examples.same_values
                         Examples.uniform_scorer Examples.ticking
                         Examples.stream stream_scorable)
                      HN HT)).
Defined.

(** ** A computed score of negative infinity *)

Lemma Rsign_eq0 (a : R) : a = 0%R -> Rsign a = Eq.
Proof. intros ->. apply Rsign_zero. Qed.

Lemma ruled_out_gold_log_probability (label : Z) :
  1 <= label < 6 ->
  gold_log_probability None [Fin 0; NInf; NInf; NInf; NInf; NInf] label = NInf.
Proof.
  intros Hlabel. unfold gold_log_probability, scaled_logits, F.softmax1.
  cbn [map xexp F.sum1 foldr xadd].
  assert (Hdiv : xdiv (Fin 0) (Fin (exp 0 + (0 + (0 + (0 + (0 + (0 + 0)))))))
                 = Fin (0 / (exp 0 + (0 + (0 + (0 + (0 + (0 + 0)))))))).
  { cbn [xdiv]. now rewrite Rsign_pos by positive. }
  rewrite Hdiv.
  set (p0 := xdiv (Fin (exp 0)) _). set (p := Fin (0 / _)).
  assert (Hpick : F.pick1 [p0; p; p; p; p; p] label = p).
  { unfold F.pick1. cbn [length].
    assert (H : label = 1 \/ label = 2 \/ label = 3 \/ label = 4 \/ label = 5)
      by lia.
    destruct H as [-> | [-> | [-> | [-> | ->]]]]; reflexivity. }
  rewrite Hpick. subst p. cbn [xlog].
  rewrite Rsign_eq0; [reflexivity |]. unfold Rdiv. lra.
Qed.

Lemma ruled_out_score :
  score_batch Examples.split_rows Examples.same_values
              Examples.padding_only_scorer Examples.one_sentence
  = Ok [NInf].
Proof.
  rewrite (score_batch_rows Examples.split_rows Examples.same_values
             Examples.padding_only_scorer Examples.padding_only_logits None
             (fun _ => Fin 1) (fun _ _ => Fin 0)).
  - f_equal. unfold scored_rows. cbn [Examples.padding_only_scorer
      Examples.scorer context Examples.split_rows batch_concat foldr batch_app
      Examples.one_sentence source source_length target target_length labels
      empty_batch app rows_of zip zip_with map F.zeros_like
      Examples.padding_only_logits fst snd].
    rewrite score_row_logprob by reflexivity.
    cbn [batch_scorer Examples.neutral_scorer softmax_temperature
         constant_length_ratio].
    unfold sum_over_non_pad. cbn [zip zip_with]. rewrite !filter_cons.
    cbn [fst snd]. unfold C.PAD_ID. rewrite !decide_True by lia.
    rewrite filter_nil. cbn [map fst snd].
    rewrite !ruled_out_gold_log_probability by lia.
    cbn [F.sum1 foldr xadd xsub xopp xdiv].
    rewrite Rsign_pos by lra. reflexivity.
  - discriminate.
  - intros s sl t tl. reflexivity.
  - intros v. reflexivity.
  - intros h r. reflexivity.
  - discriminate.
  - solve_aligned.
Qed.

(** C3 fails as stated: the sentence "b" with target "a" is not degenerate,
    the model rules its target out, [score_batch] computes negative
    infinity for it, and the record carries negative infinity. *)
Lemma computed_negative_infinity_is_reported :
  ~ degenerate [[5; 1]; [3; 1]] [2; 4]
  /\ sentences [Examples.one_sentence] = [([[5; 1]; [3; 1]], [2; 4])]
  /\ exists i o t,
       handled (score Examples.split_rows Examples.same_values
                      Examples.padding_only_scorer Examples.ticking
                      [Examples.one_sentence] empty_world).2
       = [(i, o, t)]
       /\ inference.score o = NInf.
Proof.
  assert (Hnot : ~ degenerate [[5; 1]; [3; 1]] [2; 4]).
  { intros [H | H]; discriminate H. }
  split; [exact Hnot |]. split; [reflexivity |].
  pose proof (handled_calls Examples.split_rows Examples.same_values
                Examples.padding_only_scorer Examples.ticking
                [Examples.one_sentence] padding_only_scorable) as Hcalls.
  pose proof (length_handled Examples.split_rows Examples.same_values
                Examples.padding_only_scorer Examples.ticking
                [Examples.one_sentence] padding_only_scorable) as Hlen.
  destruct (handled _) as [| [[i o] t] [| ? ?]]; try discriminate Hlen.
  destruct (calls_match_lookup Examples.padding_only_scorer _ _ 1 0 (i, o, t)
              Hcalls eq_refl) as (row & bt & Hrow & Hrec).
  unfold scored_sentences in Hrow. cbn [map concat] in Hrow.
  rewrite ruled_out_score in Hrow. cbn in Hrow. injection Hrow as <-.
  apply sentence_record_inv in Hrec.
  destruct Hrec as (_ & _ & _ & _ & _ & _ & _ & _ & Hscore).
  exists i, o, t. split; [reflexivity |]. now apply Hscore.
Qed.

(** ** The wording of the summary *)

(** C5 fails as stated: after one sentence in one batch the summary line
    reads "... Total time: T, sec/sent: ..." and not
    "... Total time: T sec, sec/sent: ...". *)
Lemma summary_wording_differs :
  exists r,
    logged (score Examples.split_rows Examples.same_values
                  Examples.uniform_scorer Examples.ticking
                  [Examples.one_sentence] empty_world).2 = [r]
    /\ getMessage r
       = Some (code_summary 1 (math_ceil (IZR 1 / IZR 1))
                            (elapsed Examples.ticking 0 0 1)
                            (elapsed Examples.ticking 0 0 1 / IZR 1)
                            (IZR 1 / elapsed Examples.ticking 0 0 1))
    /\ forall N B T X Y, getMessage r <> Some (spec_summary N B T X Y).
Proof.
  assert (Hone : Forall (scorable Examples.split_rows Examples.same_values
                                  Examples.uniform_scorer)
                        [Examples.one_sentence]).
  { pose proof stream_scorable as H. unfold Examples.stream in H.
    inversion H as [| ? ? _ Hrest]. exact Hrest. }
  destruct (score_run Examples.split_rows Examples.same_values
              Examples.uniform_scorer Examples.ticking
              [Examples.one_sentence] Hone) as (calls & _ & Hrun).
  assert (HN : Z.of_nat (length (scored_sentences Examples.split_rows
                                   Examples.same_values Examples.uniform_scorer
                                   [Examples.one_sentence])) = 1).
  { rewrite <- (length_map (fun r => (r.1, r.2.1))).
    rewrite (scored_sentences_sentences _ _ _ _ Hone). reflexivity. }
  rewrite HN in Hrun. cbn [Z.eqb length] in Hrun.
  destruct (Req_dec_T _ _) as [HT | _] in Hrun.
  { exfalso. cbn [elapsed] in HT. unfold Examples.ticking in HT.
    cbn [INR] in HT. lra. }
  rewrite Hrun. eexists. split; [reflexivity |].
  rewrite getMessage_summary. split; [reflexivity |].
  intros N B T X Y H. discriminate H.
Qed.

(** * Further properties of the scoring code *)

(** ** [BatchScorer.hybrid_forward]: shape and batching *)

(** X1: for inputs that share the size of their batch dimension and
    penalties that act entry by entry, [hybrid_forward] returns one score
    per row: the shape (batch,) of its docstring. *)
Theorem hybrid_forward_one_score_per_row (self : BatchScorer)
    (logits : list (list (list xreal))) (labels : list (list Z))
    (length_ratio source_length target_length : list xreal) :
  entrywise1 (length_penalty self) ->
  entrywise2 (brevity_penalty self) ->
  length labels = length logits ->
  length length_ratio = length logits ->
  length source_length = length logits ->
  length target_length = length logits ->
  length (hybrid_forward self logits labels length_ratio source_length
                         target_length)
  = length logits.
Proof.
  intros [lp Hlp] [bp Hbp] H1 H2 H3 H4.
  rewrite (hybrid_forward_rows self lp bp) by assumption.
  solve_length.
Qed.

(** X2: the score of a row does not depend on the rows it is batched with:
    on two batches put one after the other, the first of them with inputs
    of one size, [hybrid_forward] returns the scores of the first followed
    by the scores of the second. *)
Theorem hybrid_forward_app (self : BatchScorer)
    (logits1 logits2 : list (list (list xreal))) (labels1 labels2 : list (list Z))
    (ratio1 ratio2 source1 source2 target1 target2 : list xreal) :
  entrywise1 (length_penalty self) ->
  entrywise2 (brevity_penalty self) ->
  length labels1 = length logits1 ->
  length ratio1 = length logits1 ->
  length source1 = length logits1 ->
  length target1 = length logits1 ->
  hybrid_forward self (logits1 ++ logits2) (labels1 ++ labels2)
                 (ratio1 ++ ratio2) (source1 ++ source2) (target1 ++ target2)
  = hybrid_forward self logits1 labels1 ratio1 source1 target1
    ++ hybrid_forward self logits2 labels2 ratio2 source2 target2.
Proof.
  intros [lp Hlp] [bp Hbp] H1 H2 H3 H4.
  rewrite !(hybrid_forward_rows self lp bp) by assumption.
  rewrite <- map_app. f_equal.
  rewrite (zip_app_aligned source1 _ target1 _) by lia.
  rewrite (zip_app_aligned ratio1 _ (zip source1 target1) _) by solve_length.
  rewrite (zip_app_aligned labels1 _ (zip ratio1 _) _) by solve_length.
  rewrite (zip_app_aligned logits1 _ (zip labels1 _) _) by solve_length.
  reflexivity.
Qed.

(** ** [BatchScorer.hybrid_forward]: padding, temperature, constant ratio *)

Lemma masked_sums_any (ty : string) (temperature : option xreal)
    (logits : list (list (list xreal))) (labels : list (list Z)) :
  let token_scores :=
    F.log (F.pick (F.softmax (map (map (scaled_logits temperature)) logits))
                  labels) in
  let token_scores :=
    if String.eqb ty C.SCORING_TYPE_NEGLOGPROB
    then F.mul_scalar2 token_scores (Fin (-1))
    else token_scores in
  F.sum_axis1 (F.where_ (F.not_equal_scalar labels 0) token_scores
                        (F.zeros_like2 token_scores))
  = zip_with (masked_sum_row ty temperature) logits labels.
Proof.
  cbv zeta. revert labels.
  induction logits as [| lg logits IH]; intros [| lb labels];
    try (destruct (String.eqb ty C.SCORING_TYPE_NEGLOGPROB); reflexivity).
  specialize (IH labels).
  unfold F.sum_axis1, F.where_, F.not_equal_scalar, F.log, F.pick, F.softmax,
    F.zeros_like2, F.mul_scalar2 in *.
  destruct (String.eqb ty C.SCORING_TYPE_NEGLOGPROB) eqn:E;
    cbn [map zip_with zip fst snd]; f_equal; try exact IH;
    unfold masked_sum_row, token_scores_row; now rewrite E.
Qed.

(** The scores as a function of the masked sums of the rows. *)
Lemma hybrid_forward_masked_sums (self : BatchScorer)
    (logits : list (list (list xreal))) (labels : list (list Z))
    (length_ratio source_length target_length : list xreal) :
  hybrid_forward self logits labels length_ratio source_length target_length
  = let scores :=
      F.div (zip_with (masked_sum_row (score_type self)
                                      (softmax_temperature self))
                      logits labels)
            (length_penalty self (F.sub_scalar target_length (Fin 1))) in
    let length_ratio :=
      match constant_length_ratio self with
      | Some c => F.add length_ratio (F.scalar_mul c (F.ones_like scores))
      | None => length_ratio
      end in
    F.sub scores
          (brevity_penalty self (F.sub_scalar target_length (Fin 1))
                           (F.mul length_ratio source_length)).
Proof.
  unfold hybrid_forward. cbv zeta.
  rewrite scale_logits.
  now rewrite (masked_sums_any (score_type self) (softmax_temperature self)).
Qed.

Lemma sum1_app_zeros (l : list xreal) (k : nat) :
  F.sum1 (l ++ replicate k (Fin 0)) = F.sum1 l.
Proof.
  unfold F.sum1. rewrite foldr_app. f_equal.
  induction k as [| k IH]; [reflexivity |].
  cbn [replicate foldr]. rewrite IH. cbn. f_equal. lra.
Qed.

Lemma where1_app (c1 c2 : list bool) (x1 x2 y1 y2 : list xreal) :
  length c1 = length x1 -> length x1 = length y1 ->
  F.where1 (c1 ++ c2) (x1 ++ x2) (y1 ++ y2)
  = F.where1 c1 x1 y1 ++ F.where1 c2 x2 y2.
Proof.
  intros H1 H2. unfold F.where1.
  rewrite (zip_app_aligned x1 x2 y1 y2) by exact H2.
  revert x1 y1 H1 H2. induction c1 as [| b c1 IH]; intros [| x x1] [| y y1] H1 H2;
    cbn in *; try discriminate; [reflexivity |].
  f_equal. apply IH; lia.
Qed.

Lemma where1_all_padding (x y : list xreal) (k : nat) :
  length x = k -> length y = k ->
  F.where1 (replicate k false) x y = y.
Proof.
  unfold F.where1. revert x y.
  induction k as [| k IH]; intros [| a x] [| b y] Hx Hy; cbn in *;
    try discriminate; [reflexivity |].
  f_equal. apply IH; lia.
Qed.

Lemma token_scores_row_app (ty : string) (temperature : option xreal)
    (lg pad : list (list xreal)) (lb lb' : list Z) :
  length lg = length lb ->
  token_scores_row ty temperature (lg ++ pad) (lb ++ lb')
  = token_scores_row ty temperature lg lb
    ++ token_scores_row ty temperature pad lb'.
Proof.
  intros Hlen. unfold token_scores_row. rewrite !map_app.
  assert (Hzip : forall (a a' : list (list xreal)) (b b' : list Z),
             length a = length b ->
             zip_with F.pick1 (a ++ a') (b ++ b')
             = zip_with F.pick1 a b ++ zip_with F.pick1 a' b').
  { induction a as [| x a IH]; intros a' [| y b] b' H; cbn in *;
      try discriminate; [reflexivity |].
    f_equal. apply IH. lia. }
  rewrite Hzip by now rewrite !length_map.
  rewrite map_app. destruct (String.eqb ty C.SCORING_TYPE_NEGLOGPROB);
    [now rewrite map_app | reflexivity].
Qed.

Lemma length_token_scores_row (ty : string) (temperature : option xreal)
    (lg : list (list xreal)) (lb : list Z) :
  length lg = length lb ->
  length (token_scores_row ty temperature lg lb) = length lb.
Proof.
  intros Hlen. unfold token_scores_row.
  destruct (String.eqb ty C.SCORING_TYPE_NEGLOGPROB);
    rewrite ?length_map, length_zip_with, !length_map; lia.
Qed.

Lemma masked_sum_row_padding (ty : string) (temperature : option xreal)
    (lg pad : list (list xreal)) (lb : list Z) :
  length lg = length lb ->
  masked_sum_row ty temperature (lg ++ pad)
                 (lb ++ replicate (length pad) C.PAD_ID)
  = masked_sum_row ty temperature lg lb.
Proof.
  intros Hlen. unfold masked_sum_row.
  rewrite token_scores_row_app by exact Hlen.
  set (ts := token_scores_row ty temperature lg lb).
  set (tp := token_scores_row ty temperature pad _).
  assert (Hts : length ts = length lb)
    by (subst ts; now apply length_token_scores_row).
  assert (Htp : length tp = length pad).
  { subst tp. rewrite length_token_scores_row; now rewrite length_replicate. }
  unfold F.zeros_like. rewrite !map_app.
  rewrite where1_app by (rewrite ?length_map; lia).
  replace (map (fun a : Z => negb (a =? 0)) (replicate (length pad) C.PAD_ID))
    with (replicate (length pad) false).
  2:{ clear. induction (length pad) as [| k IH]; [reflexivity |].
      cbn. now rewrite <- IH. }
  rewrite where1_all_padding by (rewrite ?length_map; lia).
  replace (map (fun _ : xreal => Fin 0) tp) with (replicate (length pad) (Fin 0)).
  2:{ rewrite <- Htp. clear. induction tp as [| a tp IH]; [reflexivity |].
      cbn. now rewrite <- IH. }
  apply sum1_app_zeros.
Qed.

(** X3: steps labelled PAD at the end of a sentence do not change its
    score, whatever the logits of those steps are (finite, infinite or
    not a number) and whatever the score type, the temperature and the
    penalties. *)
Theorem trailing_padding_does_not_change_the_scores (self : BatchScorer)
    (logits pad : list (list (list xreal))) (labels : list (list Z))
    (length_ratio source_length target_length : list xreal) :
  Forall2 (fun lg lb => length lg = length lb) logits labels ->
  length pad = length logits ->
  hybrid_forward self (zip_with app logits pad)
                 (zip_with (fun lb p => lb ++ replicate (length p) C.PAD_ID)
                           labels pad)
                 length_ratio source_length target_length
  = hybrid_forward self logits labels length_ratio source_length target_length.
Proof.
  intros Hrows Hpad. rewrite !hybrid_forward_masked_sums. cbv zeta.
  assert (Hsums :
    zip_with (masked_sum_row (score_type self) (softmax_temperature self))
             (zip_with app logits pad)
             (zip_with (fun lb p => lb ++ replicate (length p) C.PAD_ID)
                       labels pad)
    = zip_with (masked_sum_row (score_type self) (softmax_temperature self))
               logits labels).
  { revert pad Hpad.
    induction Hrows as [| lg lb logits labels Hlen _ IH]; intros [| p pad] Hpad;
      cbn in *; try discriminate; [reflexivity |].
    f_equal; [now apply masked_sum_row_padding | apply IH; lia]. }
  now rewrite Hsums.
Qed.

Lemma div_scalar3_one (logits : list (list (list xreal))) :
  F.div_scalar3 logits (Fin 1) = logits.
Proof.
  unfold F.div_scalar3.
  rewrite <- (map_id logits) at 2. apply map_ext. intros row.
  rewrite <- (map_id row) at 2. apply map_ext. intros step.
  rewrite <- (map_id step) at 2. apply map_ext. intros a.
  apply xdiv_1_r.
Qed.

(** X4: a softmax temperature of one gives the scores of a scorer without
    temperature. *)
Theorem temperature_one_is_no_temperature (self : BatchScorer)
    (logits : list (list (list xreal))) (labels : list (list Z))
    (length_ratio source_length target_length : list xreal) :
  hybrid_forward (with_temperature self (Some (Fin 1))) logits labels
                 length_ratio source_length target_length
  = hybrid_forward (with_temperature self None) logits labels
                   length_ratio source_length target_length.
Proof.
  unfold hybrid_forward, with_temperature.
  cbn [softmax_temperature score_type length_penalty brevity_penalty
       constant_length_ratio].
  now rewrite div_scalar3_one.
Qed.


(** ** [BatchScorer.hybrid_forward]: log-probabilities are not positive *)

Lemma Rsign_cases (a : R) :
  match Rsign a with
  | Lt => (a < 0)%R
  | Eq => a = 0%R
  | Gt => (0 < a)%R
  end.
Proof.
  unfold Rsign. destruct (total_order_T a 0) as [[H | H] | H]; assumption.
Qed.

Lemma xexp_not_negative (x : xreal) : not_negative (xexp x).
Proof.
  destruct x as [a | | |]; cbn; try exact I; [| lra].
  left. apply exp_pos.
Qed.

(** The sum of numbers that are not negative bounds each of them. *)
Lemma sum1_not_negative (e : list xreal) :
  Forall not_negative e ->
  match F.sum1 e with
  | Fin t => (0 <= t)%R
             /\ Forall (fun a => exists r, a = Fin r /\ (0 <= r <= t)%R) e
  | PInf => Forall (fun a => a <> NInf) e
  | NaN => True
  | NInf => False
  end.
Proof.
  unfold F.sum1. induction 1 as [| a e Ha _ IH]; cbn [foldr].
  - split; [lra | constructor].
  - destruct (foldr xadd (Fin 0) e) as [t | | |]; try contradiction.
    + destruct IH as [Ht IH]. destruct a as [r | | |]; cbn in *;
        try contradiction; try exact I.
      * split; [lra |]. constructor.
        -- exists r. split; [reflexivity | lra].
        -- eapply Forall_impl; [exact IH |].
           intros x (q & -> & Hq). exists q. split; [reflexivity | lra].
      * constructor; [discriminate |].
        eapply Forall_impl; [exact IH |]. intros x (q & -> & _). discriminate.
    + destruct a as [r | | |]; cbn in *; try contradiction; try exact I;
        (constructor; [discriminate | exact IH]).
    + destruct a; exact I.
Qed.

Lemma xdiv_NaN_r (x : xreal) : xdiv x NaN = NaN.
Proof. now destruct x. Qed.

(** Every entry of a softmax is a probability or not a number, whatever
    the logits are. *)
Lemma softmax1_probability (x : list xreal) :
  Forall probability (F.softmax1 x).
Proof.
  unfold F.softmax1. set (e := map xexp x).
  assert (He : Forall not_negative e).
  { subst e. apply List.Forall_forall. intros a Ha. apply in_map_iff in Ha.
    destruct Ha as (y & <- & _). apply xexp_not_negative. }
  pose proof (sum1_not_negative e He) as Hsum.
  destruct (F.sum1 e) as [t | | |]; try contradiction.
  - destruct Hsum as [Ht Hall]. apply List.Forall_forall. intros p Hp.
    apply in_map_iff in Hp. destruct Hp as (a & <- & Ha).
    rewrite List.Forall_forall in Hall. destruct (Hall a Ha) as (r & -> & Hr).
    cbn [xdiv]. pose proof (Rsign_cases t) as Hsign.
    destruct (Rsign t).
    + assert (r = 0%R) as -> by lra. now rewrite Rsign_zero.
    + lra.
    + cbn. split.
      * apply Rmult_le_pos; [lra |]. left. now apply Rinv_0_lt_compat.
      * apply Rmult_le_reg_r with (r := t); [exact Hsign |].
        unfold Rdiv. rewrite Rmult_assoc, Rinv_l by lra. lra.
  - apply List.Forall_forall. intros p Hp.
    apply in_map_iff in Hp. destruct Hp as (a & <- & Ha).
    rewrite List.Forall_forall in Hsum, He.
    specialize (Hsum a Ha). specialize (He a Ha).
    destruct a as [r | | |]; cbn in *; try contradiction; try exact I. lra.
  - apply List.Forall_forall. intros p Hp.
    apply in_map_iff in Hp. destruct Hp as (a & <- & _).
    now rewrite xdiv_NaN_r.
Qed.

(** What [pick] takes from a softmax is a probability or not a number. *)
Lemma pick1_probability (x : list xreal) (index : Z) :
  Forall probability x -> probability (F.pick1 x index).
Proof.
  intros Hx. unfold F.pick1.
  set (i := Z.to_nat (Z.max 0 (Z.min index (Z.of_nat (length x) - 1)))).
  destruct (nth_in_or_default i x NaN) as [Hin | ->]; [| exact I].
  rewrite List.Forall_forall in Hx. now apply Hx.
Qed.

Lemma xlog_probability (x : xreal) : probability x -> not_positive (xlog x).
Proof.
  destruct x as [p | | |]; cbn; try contradiction; try exact (fun _ => I).
  intros [Hp0 Hp1]. pose proof (Rsign_cases p) as Hsign.
  destruct (Rsign p); try exact I. cbn.
  destruct Hp1 as [Hp1 | ->]; [| rewrite ln_1; lra].
  rewrite <- ln_1. left. now apply ln_increasing.
Qed.

Lemma gold_log_probability_not_positive (temperature : option xreal)
    (step : list xreal) (label : Z) :
  not_positive (gold_log_probability temperature step label).
Proof.
  unfold gold_log_probability.
  apply xlog_probability, pick1_probability, softmax1_probability.
Qed.

Lemma xadd_not_positive (x y : xreal) :
  not_positive x -> not_positive y -> not_positive (xadd x y).
Proof.
  destruct x, y; cbn; try contradiction; try exact (fun _ _ => I). lra.
Qed.

Lemma sum1_not_positive (l : list xreal) :
  Forall not_positive l -> not_positive (F.sum1 l).
Proof.
  unfold F.sum1. induction 1 as [| x l Hx _ IH]; cbn [foldr].
  - cbn. lra.
  - now apply xadd_not_positive.
Qed.

Lemma sum_over_non_pad_not_positive (temperature : option xreal)
    (lg : list (list xreal)) (lb : list Z) :
  not_positive (sum_over_non_pad temperature lg lb).
Proof.
  unfold sum_over_non_pad. apply sum1_not_positive.
  apply List.Forall_forall. intros x Hx. apply in_map_iff in Hx.
  destruct Hx as ([step label] & <- & _).
  apply gold_log_probability_not_positive.
Qed.

(** The log-probability scores under neutral penalties. *)
Lemma hybrid_forward_logprob_neutral (self : BatchScorer)
    (logits : list (list (list xreal))) (labels : list (list Z))
    (length_ratio source_length target_length : list xreal) :
  score_type self = C.SCORING_TYPE_LOGPROB ->
  constant_one (length_penalty self) ->
  constant_zero (brevity_penalty self) ->
  length labels = length logits ->
  length length_ratio = length logits ->
  length source_length = length logits ->
  length target_length = length logits ->
  hybrid_forward self logits labels length_ratio source_length target_length
  = zip_with (sum_over_non_pad (softmax_temperature self)) logits labels.
Proof.
  intros Htype Hlp Hbp Hlabels Hratio Hsource Htarget.
  unfold hybrid_forward. rewrite Htype, Hlp, Hbp.
  change (String.eqb C.SCORING_TYPE_LOGPROB C.SCORING_TYPE_NEGLOGPROB)
    with false.
  cbv iota zeta. rewrite scale_logits, masked_sums.
  set (sums := zip_with (sum_over_non_pad (softmax_temperature self))
                        logits labels).
  assert (Hsums : length sums = length logits).
  { subst sums. rewrite length_zip_with. lia. }
  rewrite div_ones_like by (rewrite length_sub_scalar; lia).
  apply sub_zip_zeros.
  - rewrite length_sub_scalar. lia.
  - unfold F.mul, F.add, F.scalar_mul, F.ones_like.
    destruct (constant_length_ratio self);
      rewrite ?length_zip_with, ?length_map; lia.
Qed.

(** X6: under neutral penalties no log-probability score is positive,
    whatever the logits and the temperature are: every score is a finite
    number that is at most zero, minus infinity (a word that the model
    rules out) or not a number.  The bound rests on the order of the
    numbers only: an exponential is not negative, a sum of such numbers is
    not below any of them, so that no entry of a softmax is above one, and
    the logarithm of such an entry is not above zero. *)
Theorem logprob_scores_are_not_positive (self : BatchScorer)
    (logits : list (list (list xreal))) (labels : list (list Z))
    (length_ratio source_length target_length : list xreal) :
  score_type self = C.SCORING_TYPE_LOGPROB ->
  constant_one (length_penalty self) ->
  constant_zero (brevity_penalty self) ->
  length labels = length logits ->
  length length_ratio = length logits ->
  length source_length = length logits ->
  length target_length = length logits ->
  Forall not_positive
         (hybrid_forward self logits labels length_ratio source_length
                         target_length).
Proof.
  intros Htype Hlp Hbp Hlabels Hratio Hsource Htarget.
  rewrite hybrid_forward_logprob_neutral by assumption.
  clear Hlabels Hratio Hsource Htarget. revert labels.
  induction logits as [| lg logits IH]; intros [| lb labels];
    cbn [zip_with]; try constructor.
  - apply sum_over_non_pad_not_positive.
  - apply IH.
Qed.

(** ** [Scorer.score_batch]: full precision and failures *)

Section ScoreBatchExtra.

Context {Ctx : Type}.
Variable split_and_load : Ctx -> Batch -> list Batch.
Variable astype : string -> NDArray -> NDArray.
Variable self : Scorer Ctx.

Hypothesis full_precision : dtype (model self) <> C.DTYPE_FP16.

Lemma score_shard_full_precision (s : Batch) :
  score_shard astype self (shard_item s)
  = outputs ← model_on (model self) s;
    logits ← getitem outputs Names.LOGITS_NAME;
    call_batch_scorer (batch_scorer self) logits (Ids2 (labels s))
                      (length_ratio_or_zeros outputs (source_length s))
                      (Arr1 (source_length s)) (Arr1 (target_length s)).
Proof.
  unfold score_shard, shard_item, model_on, length_ratio_or_zeros.
  rewrite (proj2 (String.eqb_neq _ _) full_precision).
  cbn [unpack4 drain mbind result_bind fst call_model].
  destruct (forward _ _ _ _ _) as [outputs | e]; [| reflexivity].
  destruct (getitem outputs Names.LOGITS_NAME) as [logits | e]; [| reflexivity].
  unfold getitem at 1. rewrite lookup_singleton_eq. reflexivity.
Qed.

Lemma score_shard_scores (s : Batch) (scores : list xreal) :
  shard_scores (model self) (batch_scorer self) s scores ->
  score_shard astype self (shard_item s) = Ok scores.
Proof.
  intros (outputs & lg & ratio & Hmodel & Hlogits & Hratio & ->).
  rewrite score_shard_full_precision, Hmodel. cbn [mbind result_bind].
  unfold getitem. rewrite Hlogits, Hratio. reflexivity.
Qed.

Lemma score_shard_fails (s : Batch) (e : exn) :
  model_fails_on (model self) s e ->
  score_shard astype self (shard_item s) = Raise e.
Proof.
  intros [Hmodel | (-> & outputs & Hmodel & Hlogits)];
    rewrite score_shard_full_precision, Hmodel; [reflexivity |].
  cbn [mbind result_bind]. unfold getitem. now rewrite Hlogits.
Qed.

Lemma mapM_shard_scores (shards : list Batch) (scores : list (list xreal)) :
  Forall2 (shard_scores (model self) (batch_scorer self)) shards scores ->
  mapM (score_shard astype self) (map shard_item shards) = Ok scores.
Proof.
  induction 1 as [| s v shards scores Hs _ IH]; [reflexivity |].
  cbn [map mapM]. rewrite (score_shard_scores s v Hs).
  cbn [mbind result_bind]. rewrite IH. reflexivity.
Qed.

End ScoreBatchExtra.

(** X7: in full precision, for whatever model, [score_batch] calls the
    model on the four arrays of each shard as they are, hands its logits to
    the batch scorer together with its length ratio, or with zeros like
    the source lengths when the model gives none, and returns the scores of
    the shards one after the other in the order of the shards. *)
Theorem score_batch_in_full_precision {Ctx : Type}
    (split_and_load : Ctx -> Batch -> list Batch)
    (astype : string -> NDArray -> NDArray) (self : Scorer Ctx)
    (b : Batch) (scores : list (list xreal)) :
  dtype (model self) <> C.DTYPE_FP16 ->
  split_and_load (context self) b <> [] ->
  Forall2 (shard_scores (model self) (batch_scorer self))
          (split_and_load (context self) b) scores ->
  score_batch split_and_load astype self b = Ok (concat scores).
Proof.
  intros Hdtype Hne Hscores. unfold score_batch.
  rewrite (mapM_shard_scores astype self Hdtype _ _ Hscores).
  cbn [mbind result_bind]. unfold nd_concat.
  destruct scores as [| v scores]; [| reflexivity].
  apply Forall2_nil_inv_r in Hscores. contradiction.
Qed.

(** X8: a failure of the model is not caught: when, in full precision, the
    shards before a shard are scored and the model raises on that shard,
    or gives outputs without logits, [score_batch] raises that exception,
    [KeyError] for the missing logits, and returns no score at all. *)
Theorem score_batch_propagates_failures {Ctx : Type}
    (split_and_load : Ctx -> Batch -> list Batch)
    (astype : string -> NDArray -> NDArray) (self : Scorer Ctx)
    (b : Batch) (before after : list Batch) (s : Batch)
    (scores : list (list xreal)) (e : exn) :
  dtype (model self) <> C.DTYPE_FP16 ->
  split_and_load (context self) b = before ++ s :: after ->
  Forall2 (shard_scores (model self) (batch_scorer self)) before scores ->
  model_fails_on (model self) s e ->
  score_batch split_and_load astype self b = Raise e.
Proof.
  intros Hdtype Hsplit Hscores Hfail. unfold score_batch. rewrite Hsplit.
  clear Hsplit.
  assert (HmapM : mapM (score_shard astype self)
                       (map shard_item (before ++ s :: after)) = Raise e).
  { induction Hscores as [| s' v before scores Hs _ IH]; cbn [app map mapM].
    - now rewrite (score_shard_fails astype self Hdtype s e Hfail).
    - rewrite (score_shard_scores astype self Hdtype s' v Hs).
      cbn [mbind result_bind]. now rewrite IH. }
  now rewrite HmapM.
Qed.

(** ** [Scorer.score]: aborted runs, the log and the clock *)

Lemma for_app {A S} (l1 l2 : list A) (body : A -> S -> M S) (s : S) (w : World) :
  for_ (l1 ++ l2) body s w
  = match for_ l1 body s w with
    | (Ok s', w') => for_ l2 body s' w'
    | (Raise e, w') => (Raise e, w')
    end.
Proof.
  revert s w. induction l1 as [| x l1 IH]; intros s w; [reflexivity |].
  cbn [app for_]. unfold mbind, M_bind.
  destruct (body x s w) as [[s' | e] w']; [apply IH | reflexivity].
Qed.

(** What every step of a loop keeps, the loop keeps. *)
Lemma for_invariant {A S} (P : World -> World -> Prop)
    (body : A -> S -> M S) (items : list A) :
  (forall w, P w w) ->
  (forall w1 w2 w3, P w1 w2 -> P w2 w3 -> P w1 w3) ->
  (forall x s w, P w (body x s w).2) ->
  forall s w, P w (for_ items body s w).2.
Proof.
  intros Hrefl Htrans Hbody. induction items as [| x items IH]; intros s w.
  - apply Hrefl.
  - cbn [for_]. unfold mbind, M_bind. specialize (Hbody x s w).
    destruct (body x s w) as [[s' | e] w']; cbn [snd] in *.
    + eapply Htrans; [exact Hbody | apply IH].
    + exact Hbody.
Qed.

Section ScoreExtra.

Context {Ctx : Type}.
Variable split_and_load : Ctx -> Batch -> list Batch.
Variable astype : string -> NDArray -> NDArray.
Variable self : Scorer Ctx.
Variable clock : nat -> R.

Lemma grows_refl (w : World) : grows w w.
Proof. split; reflexivity. Qed.

Lemma grows_trans (w1 w2 w3 : World) : grows w1 w2 -> grows w2 w3 -> grows w1 w3.
Proof.
  intros [H1 H1'] [H2 H2']. split; [now transitivity (handled w2) | congruence].
Qed.

Lemma score_sentence_grows (batch_time : R)
    (row : list (list Z) * (list Z * xreal)) (n : Z) (w : World) :
  grows w (score_sentence self batch_time row n w).2.
Proof.
  rewrite score_sentence_record.
  destruct (sentence_record _ _ _ _); cbn [snd]; [| apply grows_refl].
  split; [| reflexivity]. cbn. now apply prefix_app_r.
Qed.

Lemma score_one_batch_grows (item : Z * Batch) (vars : R * Z * Z) (w : World) :
  grows w (score_one_batch split_and_load astype self clock item vars w).2.
Proof.
  destruct item as [batch_no b], vars as [[tt n] bno]. unfold score_one_batch.
  unfold mbind at 1. unfold M_bind. cbn [time_time].
  unfold mbind at 1. unfold M_bind. unfold lift at 1.
  destruct (score_batch split_and_load astype self b) as [scores | e].
  - unfold mbind at 1. unfold M_bind. cbn [time_time clock_reads handled logged].
    unfold mbind at 1. unfold M_bind.
    match goal with
    | |- context [for_ ?rows ?body ?s ?w0] =>
        pose proof (for_invariant grows body rows grows_refl grows_trans
                      (score_sentence_grows _) s w0) as H;
        destruct (for_ rows body s w0) as [[n' | e] w']
    end; exact H.
  - cbn [snd]. split; reflexivity.
Qed.

Lemma loop_grows (stream : list Batch) (w : World) :
  grows w (score_loop split_and_load astype self clock stream w).2.
Proof.
  unfold score_loop. apply for_invariant;
    [apply grows_refl | apply grows_trans | apply score_one_batch_grows].
Qed.

Lemma score_loop_summary (stream : list Batch) (w : World) :
  score split_and_load astype self clock stream w
  = match score_loop split_and_load astype self clock stream w with
    | (Ok vars, w') => score_summary vars w'
    | (Raise e, w') => (Raise e, w')
    end.
Proof. reflexivity. Qed.

(** The summary logs one record if it ends normally and none if it raises,
    and calls the handler no more. *)
Lemma summary_effects (vars : R * Z * Z) (w : World) :
  handled (score_summary vars w).2 = handled w
  /\ ((score_summary vars w).1 = Ok tt ->
      exists r, logged (score_summary vars w).2 = logged w ++ [r])
  /\ (forall e, (score_summary vars w).1 = Raise e ->
                logged (score_summary vars w).2 = logged w).
Proof.
  destruct vars as [[tt n] bno]. unfold score_summary.
  destruct (negb (n =? 0)).
  - unfold mbind, M_bind, lift, true_div.
    repeat (destruct (Req_dec_T _ _);
            [cbn [fst snd]; split; [reflexivity |];
             split; [discriminate | reflexivity] |]).
    cbn. split; [reflexivity |]. split; [eauto | discriminate].
  - cbn. split; [reflexivity |]. split; [eauto | discriminate].
Qed.

Lemma score_handled_loop (stream : list Batch) (w : World) :
  handled (score split_and_load astype self clock stream w).2
  = handled (score_loop split_and_load astype self clock stream w).2.
Proof.
  rewrite score_loop_summary.
  destruct (score_loop split_and_load astype self clock stream w)
    as [[vars | e] w']; [| reflexivity].
  apply summary_effects.
Qed.

(** X9: [Scorer.score] logs exactly one record when it ends normally and
    none when it raises; no record is logged before the stream is used up. *)
Theorem score_logs_once_at_the_end (stream : list Batch) :
  let run := score split_and_load astype self clock stream empty_world in
  (run.1 = Ok tt -> exists r, logged run.2 = [r])
  /\ (forall e, run.1 = Raise e -> logged run.2 = []).
Proof.
  cbv zeta. rewrite score_loop_summary.
  destruct (loop_grows stream empty_world) as [_ Hlog].
  destruct (score_loop split_and_load astype self clock stream empty_world)
    as [[vars | e] w']; cbn [fst snd] in *.
  - destruct (summary_effects vars w') as (_ & Hok & Hraise).
    rewrite Hlog in Hok, Hraise. exact (conj Hok Hraise).
  - split; [discriminate | intros _ _; exact Hlog].
Qed.

(** X10: the records handed to the output handler for a stream are handed
    over, the same and in the same order, at the start of every run on a
    longer stream that begins with it: what was emitted for a batch does
    not depend on the batches after it. *)
Theorem earlier_records_do_not_depend_on_later_batches
    (stream later : list Batch) :
  handled (score split_and_load astype self clock stream empty_world).2
  `prefix_of`
  handled (score split_and_load astype self clock (stream ++ later)
                 empty_world).2.
Proof.
  rewrite !score_handled_loop. unfold score_loop.
  rewrite enumerate_app, for_app.
  destruct (for_ (enumerate stream 1) _ _ _) as [[vars | e] w'];
    cbn [snd]; [| reflexivity].
  apply (for_invariant grows _ _ grows_refl grows_trans score_one_batch_grows).
Qed.

(** X11: when [score_batch] raises on a batch, after batches that were
    scored and rendered, [Scorer.score] raises the same exception at once:
    the records of the earlier batches have been handed over, none of the
    failed batch or of a later one, and no summary is logged. *)
Theorem score_aborts_on_a_failed_batch
    (before after : list Batch) (b : Batch) (e : exn) :
  Forall (scorable split_and_load astype self) before ->
  score_batch split_and_load astype self b = Raise e ->
  exists calls,
    score split_and_load astype self clock (before ++ b :: after) empty_world
    = (Raise e,
       {| handled := calls; logged := [];
          clock_reads := 2 * length before + 1 |})
    /\ length calls = length (sentences before)
    /\ calls_match self calls
         (enumerate (scored_sentences split_and_load astype self before) 1).
Proof.
  intros Hbefore Hfail.
  destruct (for_batches split_and_load astype self clock before 1 0%R 0 0
              empty_world Hbefore) as (calls & Hrun & Hcalls).
  exists calls. split; [| split; [| exact Hcalls]].
  - rewrite score_loop_summary. unfold score_loop.
    rewrite enumerate_app, for_app, Hrun. cbn [enumerate for_].
    unfold mbind at 1. unfold M_bind. unfold score_one_batch.
    unfold mbind at 1. unfold M_bind. cbn [time_time].
    unfold mbind at 1. unfold M_bind. unfold lift at 1. rewrite Hfail.
    cbn [handled logged clock_reads empty_world app Nat.add].
    do 2 f_equal. lia.
  - apply Forall2_length in Hcalls. rewrite Hcalls, length_enumerate.
    rewrite <- (scored_sentences_sentences split_and_load astype self before
                  Hbefore).
    now rewrite length_map.
Qed.

Lemma for_sentences_time (batch_time : R)
    (rows : list (list (list Z) * (list Z * xreal))) (n : Z) (w : World) :
  exists calls,
    handled (for_ rows (score_sentence self batch_time) n w).2
    = handled w ++ calls
    /\ Forall (fun c => c.2 = batch_time) calls.
Proof.
  apply (for_invariant
           (fun w w' => exists calls,
                handled w' = handled w ++ calls
                /\ Forall (fun c => c.2 = batch_time) calls)).
  - intros w0. exists []. split; [now rewrite app_nil_r | constructor].
  - intros w1 w2 w3 (c1 & H1 & F1) (c2 & H2 & F2). exists (c1 ++ c2). split.
    + now rewrite H2, H1, app_assoc.
    + now apply Forall_app.
  - intros row n0 w0. rewrite score_sentence_record.
    destruct row as [src [tgt sc]].
    destruct (sentence_record _ _ _ _) as [[[i o] t] |] eqn:E; cbn [snd].
    + exists [(i, o, t)]. split; [reflexivity |].
      apply sentence_record_inv in E. destruct E as (_ & _ & Ht & _).
      constructor; [exact Ht | constructor].
    + exists []. split; [now rewrite app_nil_r | constructor].
Qed.

Lemma score_one_batch_time (item : Z * Batch) (vars : R * Z * Z) (w : World) :
  exists calls,
    handled (score_one_batch split_and_load astype self clock item vars w).2
    = handled w ++ calls
    /\ Forall (fun c => c.2 = (clock (S (clock_reads w))
                               - clock (clock_reads w))%R) calls.
Proof.
  destruct item as [batch_no b], vars as [[tt n] bno]. unfold score_one_batch.
  unfold mbind at 1. unfold M_bind. cbn [time_time].
  unfold mbind at 1. unfold M_bind. unfold lift at 1.
  destruct (score_batch split_and_load astype self b) as [scores | e].
  - unfold mbind at 1. unfold M_bind. cbn [time_time clock_reads handled logged].
    unfold mbind at 1. unfold M_bind.
    match goal with
    | |- context [for_ ?rows (score_sentence self ?bt) ?s ?w0] =>
        destruct (for_sentences_time bt rows s w0) as (calls & H & F);
        destruct (for_ rows (score_sentence self bt) s w0) as [[n' | e] w']
    end; exists calls; split; assumption.
  - exists []. cbn [snd handled]. split; [now rewrite app_nil_r | constructor].
Qed.

(** X14: the time handed to the output handler with a record is the time
    that [score_batch] took for the whole batch of the sentence, the same
    for every sentence of the batch: the difference of the two readings of
    the clock around the call. *)
Theorem handler_gets_the_time_of_the_batch
    (before after : list Batch) (b : Batch) :
  Forall (scorable split_and_load astype self) before ->
  scorable split_and_load astype self b ->
  exists calls_before calls_b rest,
    handled (score split_and_load astype self clock (before ++ b :: after)
                   empty_world).2
    = calls_before ++ calls_b ++ rest
    /\ length calls_before = length (sentences before)
    /\ length calls_b = length (source b)
    /\ Forall (fun c => c.2 = (clock (2 * length before + 1)
                               - clock (2 * length before))%R) calls_b.
Proof.
  intros Hbefore Hb.
  destruct (for_batches split_and_load astype self clock before 1 0%R 0 0
              empty_world Hbefore) as (calls0 & Hrun0 & Hcalls0).
  rewrite score_handled_loop. unfold score_loop.
  rewrite enumerate_app, for_app, Hrun0. cbn [enumerate for_].
  unfold mbind at 1. unfold M_bind.
  match goal with
  | |- context [score_one_batch _ _ _ _ ?item ?vars ?w0] =>
      destruct (score_one_batch_time item vars w0) as (calls1 & H1 & F1);
      destruct vars as [[tt0 n0] bno0];
      destruct (score_one_batch_scorable split_and_load astype self clock
                  item.1 b tt0 n0 bno0 w0 Hb) as (calls1' & Hrun1 & Hcalls1)
  end.
  cbn [fst] in Hrun1. rewrite Hrun1 in H1 |- *. cbn [snd handled] in H1.
  apply app_inv_head in H1. subst calls1'.
  cbn [handled logged clock_reads empty_world app Nat.add] in *.
  match goal with
  | |- context [for_ ?items ?body ?s ?w0] =>
      destruct (for_invariant grows body items grows_refl grows_trans
                  score_one_batch_grows s w0) as [[rest Hrest] _]
  end.
  exists calls0, calls1, rest. split; [| split; [| split]].
  - rewrite Hrest. cbn [handled]. now rewrite app_assoc.
  - apply Forall2_length in Hcalls0. rewrite Hcalls0, length_enumerate.
    rewrite <- (scored_sentences_sentences split_and_load astype self before
                  Hbefore).
    now rewrite length_map.
  - apply Forall2_length in Hcalls1. rewrite Hcalls1, length_enumerate.
    destruct Hb as ((scores & Hscores & Hlen) & Htgt & _).
    unfold scored_sentences. cbn [map concat]. rewrite app_nil_r, Hscores.
    cbn [scores_of]. rewrite length_zip; [reflexivity |].
    rewrite length_zip; lia.
  - eapply Forall_impl; [exact F1 |]. intros c Hc. rewrite Hc.
    do 2 f_equal; lia.
Qed.

End ScoreExtra.

(** ** [Scorer.score]: the figures of the summary *)

(** X12: when sentences were processed but the times of the batches add up
    to exactly zero, [Scorer.score] raises [ZeroDivisionError] in place of
    the summary: every record has been handed over and nothing is logged. *)
Theorem zero_elapsed_time_raises {Ctx : Type}
    (split_and_load : Ctx -> Batch -> list Batch)
    (astype : string -> NDArray -> NDArray) (self : Scorer Ctx)
    (clock : nat -> R) (stream : list Batch) :
  Forall (scorable split_and_load astype self) stream ->
  sentences stream <> [] ->
  elapsed clock 0 0 (length stream) = 0%R ->
  let run := score split_and_load astype self clock stream empty_world in
  run.1 = Raise ZeroDivisionError
  /\ logged run.2 = []
  /\ length (handled run.2) = length (sentences stream).
Proof.
  intros Hstream Hne HT run.
  pose proof (length_handled split_and_load astype self clock stream Hstream)
    as Hlen.
  destruct (score_run split_and_load astype self clock stream Hstream)
    as (calls & _ & Hrun).
  assert (HN : (Z.of_nat (length (scored_sentences split_and_load astype self
                                                   stream)) =? 0) = false).
  { apply Z.eqb_neq.
    rewrite <- (length_map (fun r => (r.1, r.2.1))).
    rewrite (scored_sentences_sentences split_and_load astype self stream
               Hstream).
    destruct (sentences stream); [contradiction | discriminate]. }
  rewrite HN in Hrun.
  destruct (Req_dec_T _ _) as [_ | HT'] in Hrun; [| contradiction].
  subst run. rewrite Hrun in *. cbn [fst snd handled logged] in *.
  split; [reflexivity |]. split; [reflexivity | exact Hlen].
Qed.

(** X13: the figure that the summary gives for the batches is the number of
    sentences divided by the number of batches, rounded up, (N + B - 1)
    div B in whole numbers: the mean size of a batch and not the number B
    of batches. *)
Theorem summary_counts_sentences_per_batch {Ctx : Type}
    (split_and_load : Ctx -> Batch -> list Batch)
    (astype : string -> NDArray -> NDArray) (self : Scorer Ctx)
    (clock : nat -> R) (stream : list Batch) :
  Forall (scorable split_and_load astype self) stream ->
  sentences stream <> [] ->
  elapsed clock 0 0 (length stream) <> 0%R ->
  let N := Z.of_nat (length (sentences stream)) in
  let B := Z.of_nat (length stream) in
  exists r rest,
    logged (score split_and_load astype self clock stream empty_world).2 = [r]
    /\ args r = ArgInt N :: ArgInt ((N + B - 1) / B) :: rest.
Proof.
  intros Hstream Hne HT N B.
  destruct (score_run split_and_load astype self clock stream Hstream)
    as (calls & _ & Hrun).
  assert (HN : Z.of_nat (length (scored_sentences split_and_load astype self
                                                  stream)) = N).
  { subst N. rewrite <- (scored_sentences_sentences split_and_load astype self
                           stream Hstream).
    now rewrite length_map. }
  rewrite HN in Hrun.
  assert (HN0 : (N =? 0) = false).
  { apply Z.eqb_neq. subst N. destruct (sentences stream);
      [contradiction | discriminate]. }
  rewrite HN0 in Hrun.
  destruct (Req_dec_T _ _) as [HT' | _] in Hrun; [contradiction |].
  rewrite Hrun. cbn [snd logged].
  eexists _, _. split; [reflexivity |]. cbn [summary_record args].
  rewrite math_ceil_quotient; [reflexivity |].
  subst B. destruct stream; [| cbn; lia].
  exfalso. now apply Hne.
Qed.

(** ** [Scorer.__init__] *)

(** X15: the construction of a [Scorer] raises [IndexError] when there is no
    source vocabulary and [KeyError] when the first source vocabulary has
    no entry for the BOS symbol or the target vocabulary none for the EOS
    symbol; otherwise it succeeds, the ids it will not render are exactly
    those two ids and PAD, and the source vocabularies after the first are
    not looked at. *)
Theorem scorer_init_uses_the_first_source_vocabulary {Ctx : Type}
    (m : SockeyeModel) (bs : BatchScorer) (source_vocabs : list (gmap string Z))
    (target_vocab : gmap string Z) (context : Ctx) :
  (source_vocabs = [] ->
   Scorer_init m bs source_vocabs target_vocab context = Raise IndexError)
  /\ forall v rest,
       source_vocabs = v :: rest ->
       (v !! Names.BOS_SYMBOL = None ->
        Scorer_init m bs source_vocabs target_vocab context = Raise KeyError)
       /\ (is_Some (v !! Names.BOS_SYMBOL) ->
           target_vocab !! Names.EOS_SYMBOL = None ->
           Scorer_init m bs source_vocabs target_vocab context = Raise KeyError)
       /\ forall bos eos,
            v !! Names.BOS_SYMBOL = Some bos ->
            target_vocab !! Names.EOS_SYMBOL = Some eos ->
            exists self,
              Scorer_init m bs source_vocabs target_vocab context = Ok self
              /\ Scorer_init m bs [v] target_vocab context = Ok self
              /\ forall i, i ∈ exclude_list self
                           <-> i = bos \/ i = eos \/ i = C.PAD_ID.
Proof.
  split.
  - intros ->. reflexivity.
  - intros v rest ->. unfold Scorer_init. cbn [item0 mbind result_bind].
    unfold getitem. split; [| split].
    + intros ->. reflexivity.
    + intros [bos ->] ->. reflexivity.
    + intros bos eos -> ->. cbn [mbind result_bind].
      eexists. split; [reflexivity |]. split; [reflexivity |].
      intros i. cbn [exclude_list].
      rewrite !elem_of_union, !elem_of_singleton. tauto.
Qed.

(** ** The further properties at the examples *)

Lemma neutral_entrywise1 : entrywise1 Examples.neutral_length_penalty.
Proof. exists (fun _ => Fin 1). intros v. reflexivity. Qed.

Lemma neutral_entrywise2 : entrywise2 Examples.neutral_brevity_penalty.
Proof. exists (fun _ _ => Fin 0). intros h r. reflexivity. Qed.

Lemma log_brevity_entrywise2 : entrywise2 Examples.log_brevity_penalty.
Proof. exists Examples.log_brevity_penalty1. intros h r. reflexivity. Qed.

Lemma hybrid_forward_one_score_per_row_witness :
  entrywise1 (length_penalty (Examples.neutral_scorer C.SCORING_TYPE_LOGPROB))
  /\ entrywise2 (brevity_penalty (Examples.neutral_scorer C.SCORING_TYPE_LOGPROB))
  /\ length Examples.sentence_labels = length Examples.sentence_logits
  /\ length (hybrid_forward (Examples.neutral_scorer C.SCORING_TYPE_LOGPROB)
                            Examples.sentence_logits Examples.sentence_labels
                            [Fin 1] [Fin 2] [Fin 3])
     = 1%nat.
Proof.
  split; [exact neutral_entrywise1 |]. split; [exact neutral_entrywise2 |].
  split; [reflexivity |].
  exact (hybrid_forward_one_score_per_row
           (Examples.neutral_scorer C.SCORING_TYPE_LOGPROB)
           Examples.sentence_logits Examples.sentence_labels
           [Fin 1] [Fin 2] [Fin 3]
           neutral_entrywise1 neutral_entrywise2 eq_refl eq_refl eq_refl
           eq_refl).
Defined.

Lemma hybrid_forward_app_witness :
  entrywise1 (length_penalty (MoreExamples.penalised_scorer None))
  /\ entrywise2 (brevity_penalty (MoreExamples.penalised_scorer None))
  /\ hybrid_forward (MoreExamples.penalised_scorer None)
       (Examples.sentence_logits ++ Examples.sentence_logits)
       (Examples.sentence_labels ++ Examples.sentence_labels)
       ([Fin 1] ++ [Fin 2]) ([Fin 2] ++ [Fin 2]) ([Fin 3] ++ [Fin 3])
     = hybrid_forward (MoreExamples.penalised_scorer None)
         Examples.sentence_logits Examples.sentence_labels
         [Fin 1] [Fin 2] [Fin 3]
       ++ hybrid_forward (MoreExamples.penalised_scorer None)
            Examples.sentence_logits Examples.sentence_labels
            [Fin 2] [Fin 2] [Fin 3].
Proof.
  split; [exact neutral_entrywise1 |]. split; [exact log_brevity_entrywise2 |].
  exact (hybrid_forward_app (MoreExamples.penalised_scorer None)
           Examples.sentence_logits Examples.sentence_logits
           Examples.sentence_labels Examples.sentence_labels
           [Fin 1] [Fin 2] [Fin 2] [Fin 2] [Fin 3] [Fin 3]
           neutral_entrywise1 log_brevity_entrywise2
           eq_refl eq_refl eq_refl eq_refl).
Defined.

Lemma trailing_padding_does_not_change_the_scores_witness :
  Forall2 (fun (lg : list (list xreal)) (lb : list Z) => length lg = length lb)
          Examples.sentence_logits Examples.sentence_labels
  /\ length MoreExamples.padding_logits = length Examples.sentence_logits
  /\ hybrid_forward (MoreExamples.penalised_scorer (Some (Fin 1)))
       (zip_with app Examples.sentence_logits MoreExamples.padding_logits)
       (zip_with (fun lb p => lb ++ replicate (length p) C.PAD_ID)
                 Examples.sentence_labels MoreExamples.padding_logits)
       [Fin 1] [Fin 2] [Fin 3]
     = hybrid_forward (MoreExamples.penalised_scorer (Some (Fin 1)))
         Examples.sentence_logits Examples.sentence_labels
         [Fin 1] [Fin 2] [Fin 3].
Proof.
  assert (H : Forall2 (fun (lg : list (list xreal)) (lb : list Z) =>
                         length lg = length lb)
                      Examples.sentence_logits Examples.sentence_labels)
    by (constructor; [reflexivity | constructor]).
  split; [exact H |]. split; [reflexivity |].
  exact (trailing_padding_does_not_change_the_scores
           (MoreExamples.penalised_scorer (Some (Fin 1)))
           Examples.sentence_logits MoreExamples.padding_logits
           Examples.sentence_labels [Fin 1] [Fin 2] [Fin 3] H eq_refl).
Defined.


Lemma logprob_scores_are_not_positive_witness :
  constant_one Examples.neutral_length_penalty
  /\ constant_zero Examples.neutral_brevity_penalty
  /\ length MoreExamples.ruled_out_labels = length MoreExamples.ruled_out_logits
  /\ Forall not_positive
            (hybrid_forward (Examples.neutral_scorer C.SCORING_TYPE_LOGPROB)
                            MoreExamples.ruled_out_logits
                            MoreExamples.ruled_out_labels
                            [Fin 1] [Fin 2] [Fin 3]).
Proof.
  assert (H1 : constant_one Examples.neutral_length_penalty)
    by (intros v; reflexivity).
  assert (H2 : constant_zero Examples.neutral_brevity_penalty)
    by (intros h r; reflexivity).
  split; [exact H1 |]. split; [exact H2 |]. split; [reflexivity |].
  exact (logprob_scores_are_not_positive
           (Examples.neutral_scorer C.SCORING_TYPE_LOGPROB)
           MoreExamples.ruled_out_logits MoreExamples.ruled_out_labels
           [Fin 1] [Fin 2] [Fin 3]
           eq_refl H1 H2 eq_refl eq_refl eq_refl eq_refl).
Defined.

Lemma row_model_shard_scores (logits : Row -> list (list xreal))
    (bs : BatchScorer) (s : Batch) :
  shard_scores (Examples.row_model "float32" logits None) bs s
    (hybrid_forward bs
       (map logits (rows_of (source s) (source_length s) (target s)
                            (target_length s)))
       (labels s) (F.zeros_like (source_length s)) (source_length s)
       (target_length s)).
Proof.
  eexists _, _, _. split; [reflexivity |]. split; [apply lookup_singleton_eq |].
  split; [apply (get_length_ratio _ None) | reflexivity].
Qed.

Lemma score_batch_in_full_precision_witness :
  dtype (model Examples.sharded_scorer) <> C.DTYPE_FP16
  /\ Examples.split_rows (context Examples.sharded_scorer)
                         Examples.two_sentences <> []
  /\ exists scores,
       Forall2 (shard_scores (model Examples.sharded_scorer)
                             (batch_scorer Examples.sharded_scorer))
               (Examples.split_rows (context Examples.sharded_scorer)
                                    Examples.two_sentences) scores
       /\ score_batch Examples.split_rows Examples.same_values
                      Examples.sharded_scorer Examples.two_sentences
          = Ok (concat scores).
Proof.
  assert (H1 : dtype (model Examples.sharded_scorer) <> C.DTYPE_FP16)
    by discriminate.
  assert (H2 : Examples.split_rows (context Examples.sharded_scorer)
                                   Examples.two_sentences <> [])
    by discriminate.
  split; [exact H1 |]. split; [exact H2 |].
  pose (scores :=
    map (fun s =>
           hybrid_forward (batch_scorer Examples.sharded_scorer)
             (map Examples.uniform_logits
                  (rows_of (source s) (source_length s) (target s)
                           (target_length s)))
             (labels s) (F.zeros_like (source_length s)) (source_length s)
             (target_length s))
        (Examples.split_rows (context Examples.sharded_scorer)
                             Examples.two_sentences)).
  assert (H3 : Forall2 (shard_scores (model Examples.sharded_scorer)
                                     (batch_scorer Examples.sharded_scorer))
                       (Examples.split_rows (context Examples.sharded_scorer)
                                            Examples.two_sentences)
                       scores).
  { apply Forall2_fmap_r, Forall_Forall2_diag, List.Forall_forall.
    intros s _. apply row_model_shard_scores. }
  exists scores. split; [exact H3 |].
  exact (score_batch_in_full_precision
           Examples.split_rows Examples.same_values Examples.sharded_scorer
           Examples.two_sentences scores H1 H2 H3).
Defined.

Lemma score_batch_propagates_failures_witness :
  dtype (model MoreExamples.picky_scorer) <> C.DTYPE_FP16
  /\ Examples.split_rows (context MoreExamples.picky_scorer)
                         Examples.two_sentences
     = [] ++ Examples.two_sentences :: []
  /\ model_fails_on (model MoreExamples.picky_scorer) Examples.two_sentences
                    ValueError
  /\ score_batch Examples.split_rows Examples.same_values
                 MoreExamples.picky_scorer Examples.two_sentences
     = Raise ValueError.
Proof.
  assert (H1 : dtype (model MoreExamples.picky_scorer) <> C.DTYPE_FP16)
    by discriminate.
  assert (H2 : model_fails_on (model MoreExamples.picky_scorer)
                              Examples.two_sentences ValueError)
    by (left; reflexivity).
  split; [exact H1 |]. split; [reflexivity |]. split; [exact H2 |].
  exact (score_batch_propagates_failures
           Examples.split_rows Examples.same_values MoreExamples.picky_scorer
           Examples.two_sentences [] [] Examples.two_sentences [] ValueError
           H1 eq_refl (List.Forall2_nil _) H2).
Defined.

Lemma picky_scorable :
  Forall (scorable Examples.split_rows Examples.same_values
                   MoreExamples.picky_scorer) [Examples.one_sentence].
Proof.
  constructor; [| constructor]. split; [| split].
  - pose (v := hybrid_forward (batch_scorer MoreExamples.picky_scorer)
                 (map Examples.uniform_logits
                      (rows_of (source Examples.one_sentence)
                               (source_length Examples.one_sentence)
                               (target Examples.one_sentence)
                               (target_length Examples.one_sentence)))
                 (labels Examples.one_sentence)
                 (F.zeros_like (source_length Examples.one_sentence))
                 (source_length Examples.one_sentence)
                 (target_length Examples.one_sentence)).
    exists (concat [v]). split.
    + unfold score_batch.
      change (Examples.split_rows (context MoreExamples.picky_scorer)
                                  Examples.one_sentence)
        with [Examples.one_sentence].
      rewrite (mapM_shard_scores Examples.same_values MoreExamples.picky_scorer
                 ltac:(discriminate) [Examples.one_sentence] [v]).
      * reflexivity.
      * constructor; [| constructor].
        eexists _, _, _. split; [reflexivity |].
        split; [apply lookup_singleton_eq |].
        split; [apply (get_length_ratio _ None) | reflexivity].
    + cbn [concat]. rewrite app_nil_r. subst v.
      rewrite (hybrid_forward_rows _ (fun _ => Fin 1) (fun _ _ => Fin 0))
        by (intros; reflexivity).
      reflexivity.
  - reflexivity.
  - repeat (constructor; [solve_renderable |]); constructor.
Qed.

Lemma picky_fails :
  score_batch Examples.split_rows Examples.same_values
              MoreExamples.picky_scorer Examples.two_sentences
  = Raise ValueError.
Proof. reflexivity. Qed.

Lemma score_aborts_on_a_failed_batch_witness :
  Forall (scorable Examples.split_rows Examples.same_values
                   MoreExamples.picky_scorer) [Examples.one_sentence]
  /\ score_batch Examples.split_rows Examples.same_values
                 MoreExamples.picky_scorer Examples.two_sentences
     = Raise ValueError
  /\ exists calls,
       score Examples.split_rows Examples.same_values MoreExamples.picky_scorer
             Examples.ticking
             ([Examples.one_sentence] ++ Examples.two_sentences
                                         :: [Examples.one_sentence])
             empty_world
       = (Raise ValueError,
          {| handled := calls; logged := []; clock_reads := 3 |})
       /\ length calls = 1%nat.
Proof.
  split; [exact picky_scorable |]. split; [exact picky_fails |].
  destruct (score_aborts_on_a_failed_batch
              Examples.split_rows Examples.same_values
              MoreExamples.picky_scorer Examples.ticking
              [Examples.one_sentence] [Examples.one_sentence]
              Examples.two_sentences ValueError picky_scorable picky_fails)
    as (calls & Hrun & Hlen & _).
  exists calls. split; [exact Hrun | exact Hlen].
Defined.

Lemma example_run_ends_normally :
  (score Examples.split_rows Examples.same_values Examples.uniform_scorer
         Examples.ticking Examples.stream empty_world).1 = Ok tt.
Proof.
  destruct (score_run Examples.split_rows Examples.same_values
              Examples.uniform_scorer Examples.ticking Examples.stream
              stream_scorable) as (calls & _ & Hrun).
  assert (HN : Z.of_nat (length (scored_sentences Examples.split_rows
                                   Examples.same_values Examples.uniform_scorer
                                   Examples.stream)) = 3).
  { rewrite <- (length_map (fun r => (r.1, r.2.1))).
    rewrite (scored_sentences_sentences _ _ _ _ stream_scorable). reflexivity. }
  rewrite HN in Hrun. cbn [Z.eqb] in Hrun.
  destruct (Req_dec_T _ _) as [HT | _] in Hrun.
  { exfalso. cbn [elapsed Examples.stream length] in HT.
    unfold Examples.ticking in HT. cbn [INR] in HT. lra. }
  now rewrite Hrun.
Qed.

Lemma score_logs_once_at_the_end_witness :
  (score Examples.split_rows Examples.same_values Examples.uniform_scorer
         Examples.ticking Examples.stream empty_world).1 = Ok tt
  /\ exists r,
       logged (score Examples.split_rows Examples.same_values
                     Examples.uniform_scorer Examples.ticking Examples.stream
                     empty_world).2 = [r].
Proof.
  split; [exact example_run_ends_normally |].
  exact (proj1 (score_logs_once_at_the_end
                  Examples.split_rows Examples.same_values
                  Examples.uniform_scorer Examples.ticking Examples.stream)
               example_run_ends_normally).
Defined.

Lemma zero_elapsed_time_raises_witness :
  Forall (scorable Examples.split_rows Examples.same_values
                   Examples.uniform_scorer) Examples.stream
  /\ sentences Examples.stream <> []
  /\ elapsed MoreExamples.frozen 0 0 (length Examples.stream) = 0%R
  /\ (score Examples.split_rows Examples.same_values Examples.uniform_scorer
            MoreExamples.frozen Examples.stream empty_world).1
     = Raise ZeroDivisionError.
Proof.
  assert (H1 : sentences Examples.stream <> []) by discriminate.
  assert (H2 : elapsed MoreExamples.frozen 0 0 (length Examples.stream) = 0%R).
  { cbn [elapsed Examples.stream length]. unfold MoreExamples.frozen. lra. }
  split; [exact stream_scorable |]. split; [exact H1 |]. split; [exact H2 |].
  exact (proj1 (zero_elapsed_time_raises
                  Examples.split_rows Examples.same_values
                  Examples.uniform_scorer MoreExamples.frozen Examples.stream
                  stream_scorable H1 H2)).
Defined.

Lemma summary_counts_sentences_per_batch_witness :
  Forall (scorable Examples.split_rows Examples.same_values
                   Examples.uniform_scorer) Examples.stream
  /\ sentences Examples.stream <> []
  /\ elapsed Examples.ticking 0 0 (length Examples.stream) <> 0%R
  /\ exists r rest,
       logged (score Examples.split_rows Examples.same_values
                     Examples.uniform_scorer Examples.ticking Examples.stream
                     empty_world).2 = [r]
       /\ args r = ArgInt 3 :: ArgInt ((3 + 2 - 1) / 2) :: rest.
Proof.
  assert (H1 : sentences Examples.stream <> []) by discriminate.
  assert (H2 : elapsed Examples.ticking 0 0 (length Examples.stream) <> 0%R).
  { cbn [elapsed Examples.stream length]. unfold Examples.ticking.
    cbn [INR]. lra. }
  split; [exact stream_scorable |]. split; [exact H1 |]. split; [exact H2 |].
  exact (summary_counts_sentences_per_batch
           Examples.split_rows Examples.same_values Examples.uniform_scorer
           Examples.ticking Examples.stream stream_scorable H1 H2).
Defined.

Lemma two_sentences_scorable :
  Forall (scorable Examples.split_rows Examples.same_values
                   Examples.uniform_scorer) [Examples.two_sentences].
Proof.
  pose proof stream_scorable as H. unfold Examples.stream in H.
  inversion H as [| ? ? Hb _]. constructor; [exact Hb | constructor].
Qed.

Lemma one_sentence_scorable :
  scorable Examples.split_rows Examples.same_values Examples.uniform_scorer
           Examples.one_sentence.
Proof.
  pose proof stream_scorable as H. unfold Examples.stream in H.
  inversion H as [| ? ? _ Hrest]. now inversion Hrest.
Qed.

Lemma handler_gets_the_time_of_the_batch_witness :
  Forall (scorable Examples.split_rows Examples.same_values
                   Examples.uniform_scorer) [Examples.two_sentences]
  /\ scorable Examples.split_rows Examples.same_values Examples.uniform_scorer
              Examples.one_sentence
  /\ exists calls_before calls_b rest,
       handled (score Examples.split_rows Examples.same_values
                      Examples.uniform_scorer Examples.ticking
                      ([Examples.two_sentences] ++ Examples.one_sentence :: [])
                      empty_world).2
       = calls_before ++ calls_b ++ rest
       /\ length calls_before = 2%nat
       /\ length calls_b = 1%nat
       /\ Forall (fun c => c.2 = (Examples.ticking 3 - Examples.ticking 2)%R)
                 calls_b.
Proof.
  split; [exact two_sentences_scorable |]. split; [exact one_sentence_scorable |].
  exact (handler_gets_the_time_of_the_batch
           Examples.split_rows Examples.same_values Examples.uniform_scorer
           Examples.ticking [Examples.two_sentences] []
           Examples.one_sentence two_sentences_scorable one_sentence_scorable).
Defined.

Lemma scorer_init_uses_the_first_source_vocabulary_witness :
  Examples.vocabulary !! Names.BOS_SYMBOL = Some 2
  /\ Examples.vocabulary !! Names.EOS_SYMBOL = Some 3
  /\ exists self,
       Scorer_init (Examples.row_model "float32" Examples.uniform_logits None)
                   (Examples.neutral_scorer C.SCORING_TYPE_LOGPROB)
                   [Examples.vocabulary; ∅] Examples.vocabulary [1%nat]
       = Ok self
       /\ forall i, i ∈ exclude_list self <-> i = 2 \/ i = 3 \/ i = C.PAD_ID.
Proof.
  assert (H1 : Examples.vocabulary !! Names.BOS_SYMBOL = Some 2)
    by (vm_compute; reflexivity).
  assert (H2 : Examples.vocabulary !! Names.EOS_SYMBOL = Some 3)
    by (vm_compute; reflexivity).
  split; [exact H1 |]. split; [exact H2 |].
  destruct (proj2 (proj2 (proj2 (scorer_init_uses_the_first_source_vocabulary
              (Examples.row_model "float32" Examples.uniform_logits None)
              (Examples.neutral_scorer C.SCORING_TYPE_LOGPROB)
              [Examples.vocabulary; ∅] Examples.vocabulary [1%nat])
              Examples.vocabulary [∅] eq_refl)) 2 3 H1 H2)
    as (self & Hinit & _ & Hexcl).
  exists self. split; [exact Hinit | exact Hexcl].
Defined.
